(** * Layer 0 hardware abstraction layer ([system_hal.c])

    A shallow embedding of the Linux/POSIX reference implementation of the
    HAL: the interrupt-nesting counter, the monotonic timestamp and the
    microsecond delay, the inert timer and DMA lifecycle, and the aligned
    allocator.  Machine integers are [Z] with their wrap-around written out;
    the process-wide variables of the C file are the fields of one record
    that every operation takes and returns; the operating system (clocks,
    [nanosleep], the allocator) is an oracle indexed by the number of calls
    made so far. *)

From Stdlib Require Import ZArith Lia List Bool.
From stdpp Require Import base option gmap.
Import ListNotations.

Local Open Scope Z_scope.

(** ** Machine integers *)

Definition UINT32_MAX : Z := 2 ^ 32 - 1.
Definition UINT64_MAX : Z := 2 ^ 64 - 1.

(** Conversion to [uint32_t] and to [uint64_t]. *)
Definition u32 (x : Z) : Z := x mod 2 ^ 32.
Definition u64 (x : Z) : Z := x mod 2 ^ 64.

Definition in_u32 (x : Z) : Prop := 0 <= x <= UINT32_MAX.
Definition in_u64 (x : Z) : Prop := 0 <= x <= UINT64_MAX.

(** ** Status codes ([hal_status_t]) *)

Inductive hal_status_t : Set :=
| HAL_OK
| HAL_ERROR
| HAL_TIMEOUT
| HAL_BUSY
| HAL_INVALID_PARAM.

Definition hal_status_code (st : hal_status_t) : Z :=
  match st with
  | HAL_OK => 0
  | HAL_ERROR => -1
  | HAL_TIMEOUT => -2
  | HAL_BUSY => -3
  | HAL_INVALID_PARAM => -4
  end.

(** ** Process state

    [g_hal_state] and [g_interrupt_nesting] are the two file-scope variables
    of [system_hal.c].  [heap] holds the scalar objects the HAL writes through
    pointers (keyed by the address of the object), [released] the arguments
    given to [free] (latest first), and [os_step] counts the calls made to
    the operating system. *)

Record hal_state : Type := mk_hal_state {
  g_hal_initialized : bool;
  g_hal_start_time_us : Z;
  g_interrupt_nesting : Z;
  heap : gmap Z Z;
  released : list Z;
  os_step : nat
}.

Definition set_interrupt_nesting (v : Z) (s : hal_state) : hal_state :=
  {| g_hal_initialized := g_hal_initialized s;
     g_hal_start_time_us := g_hal_start_time_us s;
     g_interrupt_nesting := v;
     heap := heap s;
     released := released s;
     os_step := os_step s |}.

Definition set_heap (h : gmap Z Z) (s : hal_state) : hal_state :=
  {| g_hal_initialized := g_hal_initialized s;
     g_hal_start_time_us := g_hal_start_time_us s;
     g_interrupt_nesting := g_interrupt_nesting s;
     heap := h;
     released := released s;
     os_step := os_step s |}.

Definition set_released (l : list Z) (s : hal_state) : hal_state :=
  {| g_hal_initialized := g_hal_initialized s;
     g_hal_start_time_us := g_hal_start_time_us s;
     g_interrupt_nesting := g_interrupt_nesting s;
     heap := heap s;
     released := l;
     os_step := os_step s |}.

Definition set_os_step (n : nat) (s : hal_state) : hal_state :=
  {| g_hal_initialized := g_hal_initialized s;
     g_hal_start_time_us := g_hal_start_time_us s;
     g_interrupt_nesting := g_interrupt_nesting s;
     heap := heap s;
     released := released s;
     os_step := n |}.

Definition set_hal_started (t : Z) (s : hal_state) : hal_state :=
  {| g_hal_initialized := true;
     g_hal_start_time_us := t;
     g_interrupt_nesting := g_interrupt_nesting s;
     heap := heap s;
     released := released s;
     os_step := os_step s |}.

(** The state at program start: the static initialisers of the C file
    ([.initialized = false], [g_interrupt_nesting = 0]). *)
Definition hal_boot : hal_state :=
  {| g_hal_initialized := false;
     g_hal_start_time_us := 0;
     g_interrupt_nesting := 0;
     heap := ∅;
     released := [];
     os_step := O |}.

(** ** Interrupt functions *)

(** [return g_interrupt_nesting++;] on a [uint32_t]. *)
Definition hal_disable_interrupts (s : hal_state) : Z * hal_state :=
  (g_interrupt_nesting s,
   set_interrupt_nesting (u32 (g_interrupt_nesting s + 1)) s).

(** [if (g_interrupt_nesting > 0) g_interrupt_nesting--;] with the argument
    [state] marked unused. *)
Definition hal_restore_interrupts (state : Z) (s : hal_state) : hal_state :=
  if 0 <? g_interrupt_nesting s
  then set_interrupt_nesting (u32 (g_interrupt_nesting s - 1)) s
  else s.

Definition hal_enter_critical (s : hal_state) : hal_state :=
  snd (hal_disable_interrupts s).

Definition hal_exit_critical (s : hal_state) : hal_state :=
  hal_restore_interrupts 0 s.

(** A call of the interrupt group, and the run of a sequence of calls. *)
Inductive irq_call : Set :=
| Disable
| Restore (token : Z)
| EnterCritical
| ExitCritical.

Definition irq_step (s : hal_state) (c : irq_call) : hal_state :=
  match c with
  | Disable => snd (hal_disable_interrupts s)
  | Restore token => hal_restore_interrupts token s
  | EnterCritical => hal_enter_critical s
  | ExitCritical => hal_exit_critical s
  end.

Definition irq_run (l : list irq_call) (s : hal_state) : hal_state :=
  fold_left irq_step l s.

Definition opens (c : irq_call) : bool :=
  match c with
  | Disable | EnterCritical => true
  | Restore _ | ExitCritical => false
  end.

Definition is_raw (c : irq_call) : bool :=
  match c with
  | Disable | Restore _ => true
  | EnterCritical | ExitCritical => false
  end.

Fixpoint count_opens (l : list irq_call) : nat :=
  match l with
  | [] => O
  | c :: l' => if opens c then S (count_opens l') else count_opens l'
  end.

Fixpoint count_closes (l : list irq_call) : nat :=
  match l with
  | [] => O
  | c :: l' => if opens c then count_closes l' else S (count_closes l')
  end.

(** [well_nested depth l]: read from left to right with [depth] sections
    already open, no call of [l] closes a section that was not opened, and
    every opened section is closed at the end. *)
Fixpoint well_nested (depth : nat) (l : list irq_call) : bool :=
  match l with
  | [] => Nat.eqb depth 0
  | c :: l' =>
      if opens c then well_nested (S depth) l'
      else match depth with
           | O => false
           | S d => well_nested d l'
           end
  end.

(** ** The platform

    What the C file takes from its build and from the operating system.
    [HAS_CLOCK_MONOTONIC_RAW] is defined on Linux only; the allocator uses
    [posix_memalign] when [_POSIX_C_SOURCE >= 200112L] and its own
    over-allocation otherwise.  The operating system answers the [n]-th call
    made to it: [clock_gettime c n] is the reading of clock [c] ([None] when
    the call fails), [nanosleep req n] is the return value of the sleep (0
    when it ran to completion, -1 when a signal cut it short), [malloc] and
    [posix_memalign] give the address of the block (0 for a null pointer). *)

Inductive clockid_t : Set :=
| CLOCK_MONOTONIC_RAW
| CLOCK_MONOTONIC.

Record timespec : Set := mk_timespec {
  tv_sec : Z;
  tv_nsec : Z
}.

Inductive data_model : Set :=
| ILP32
| LP64.

Record platform : Type := mk_platform {
  HAS_CLOCK_MONOTONIC_RAW : bool;
  HAS_POSIX_MEMALIGN : bool;
  pointer_model : data_model;
  clock_gettime : clockid_t -> nat -> option timespec;
  nanosleep : timespec -> nat -> Z;
  malloc : Z -> nat -> Z;
  posix_memalign : Z -> Z -> nat -> Z * Z
}.

Definition word_bits (m : data_model) : Z :=
  match m with
  | ILP32 => 32
  | LP64 => 64
  end.

(** [sizeof(void* )], and the conversion to [size_t] and [uintptr_t]. *)
Definition sizeof_ptr (m : data_model) : Z := word_bits m / 8.
Definition SIZE_MAX (m : data_model) : Z := 2 ^ word_bits m - 1.
Definition uword (m : data_model) (x : Z) : Z := x mod 2 ^ word_bits m.

(** ** Configuration records *)

Record hal_timer_config_t : Type := mk_timer_config {
  frequency_hz : Z;
  enable_interrupt : bool;
  callback : option Z;
  user_data : Z
}.

Record hal_dma_config_t : Type := mk_dma_config {
  src_addr : Z;
  dst_addr : Z;
  transfer_size : Z;
  circular : bool
}.

Section Hal.

Variable P : platform.

(** One call to the operating system has been made. *)
Definition os_call (s : hal_state) : hal_state :=
  set_os_step (S (os_step s)) s.

(** ** Timing functions *)

(** [(hal_timestamp_us_t)ts.tv_sec * 1000000ULL +
     (hal_timestamp_us_t)ts.tv_nsec / 1000ULL] *)
Definition timespec_to_us (ts : timespec) : Z :=
  u64 (u64 (u64 (tv_sec ts) * 1000000) + u64 (tv_nsec ts) / 1000).

(** The second half of [hal_get_timestamp_us]: [CLOCK_MONOTONIC], then 0. *)
Definition timestamp_fallback (s : hal_state) : Z * hal_state :=
  match clock_gettime P CLOCK_MONOTONIC (os_step s) with
  | Some ts => (timespec_to_us ts, os_call s)
  | None => (0, os_call s)
  end.

Definition hal_get_timestamp_us (s : hal_state) : Z * hal_state :=
  if HAS_CLOCK_MONOTONIC_RAW P then
    match clock_gettime P CLOCK_MONOTONIC_RAW (os_step s) with
    | Some ts => (timespec_to_us ts, os_call s)
    | None => timestamp_fallback (os_call s)
    end
  else timestamp_fallback s.

(** [hal_initialize]: records the start time once. *)
Definition hal_initialize (s : hal_state) : hal_state :=
  if g_hal_initialized s then s
  else let '(t, s1) := hal_get_timestamp_us s in set_hal_started t s1.

(** [pause] / [yield] / [nop]: no effect on the state. *)
Definition hal_spin_hint (s : hal_state) : hal_state := s.

(** [while (hal_get_timestamp_us() < end) hal_spin_hint();] with at most
    [fuel] evaluations of the loop condition. *)
Fixpoint busy_wait (fuel : nat) (end_ : Z) (s : hal_state) : option hal_state :=
  match fuel with
  | O => None
  | S fuel' =>
      let '(now, s1) := hal_get_timestamp_us s in
      if now <? end_ then busy_wait fuel' end_ (hal_spin_hint s1)
      else Some s1
  end.

(** The request built for [nanosleep]. *)
Definition sleep_request (delay_us : Z) : timespec :=
  {| tv_sec := delay_us / 1000000;
     tv_nsec := u32 (delay_us mod 1000000 * 1000) |}.

(** [nanosleep(&req, NULL);] as a statement: the return value is dropped. *)
Definition nanosleep_call (req : timespec) (s : hal_state) : hal_state :=
  let _ := nanosleep P req (os_step s) in os_call s.

Definition hal_delay_us (fuel : nat) (delay_us : Z) (s : hal_state)
  : option hal_state :=
  let '(start, s1) := hal_get_timestamp_us s in
  let end_ := u64 (start + delay_us) in
  if 10000 <? delay_us then Some (nanosleep_call (sleep_request delay_us) s1)
  else busy_wait fuel end_ s1.

(** The measurement of [test_timestamp]: a timestamp before the delay, one
    after it, and their difference as a [uint64_t]. *)
Definition measure_delay (fuel : nat) (delay_us : Z) (s : hal_state)
  : option Z :=
  let '(t1, s1) := hal_get_timestamp_us s in
  match hal_delay_us fuel delay_us s1 with
  | Some s2 => let '(t2, _) := hal_get_timestamp_us s2 in Some (u64 (t2 - t1))
  | None => None
  end.

(** ** Timer functions *)

Definition hal_timer_init (timer_id : Z) (config : option hal_timer_config_t)
  (s : hal_state) : hal_status_t * hal_state :=
  match config with
  | None => (HAL_INVALID_PARAM, s)
  | Some _ => (HAL_OK, s)
  end.

Definition hal_timer_start (timer_id : Z) (s : hal_state)
  : hal_status_t * hal_state := (HAL_OK, s).

Definition hal_timer_stop (timer_id : Z) (s : hal_state)
  : hal_status_t * hal_state := (HAL_OK, s).

(** [counter] is the address the result is written to, [None] for [NULL]. *)
Definition hal_timer_get_counter (timer_id : Z) (counter : option Z)
  (s : hal_state) : hal_status_t * hal_state :=
  match counter with
  | None => (HAL_INVALID_PARAM, s)
  | Some a => (HAL_OK, set_heap (<[a := 0]> (heap s)) s)
  end.

(** ** DMA functions *)

Definition hal_dma_init (dma_id : Z) (config : option hal_dma_config_t)
  (s : hal_state) : hal_status_t * hal_state :=
  match config with
  | None => (HAL_INVALID_PARAM, s)
  | Some _ => (HAL_OK, s)
  end.

Definition hal_dma_start (dma_id : Z) (s : hal_state)
  : hal_status_t * hal_state := (HAL_OK, s).

Definition hal_dma_wait (fuel : nat) (dma_id : Z) (timeout_us : Z)
  (s : hal_state) : option (hal_status_t * hal_state) :=
  if 0 <? timeout_us then
    match hal_delay_us fuel timeout_us s with
    | Some s1 => Some (HAL_OK, s1)
    | None => None
    end
  else Some (HAL_OK, s).

(** ** Memory functions *)

(** [(addr + alignment - 1) & ~(alignment - 1)] on [uintptr_t]. *)
Definition align_up (addr alignment : Z) : Z :=
  let W := pointer_model P in
  Z.land (uword W (addr + alignment - 1))
         (uword W (Z.lnot (uword W (alignment - 1)))).

(** The number of bytes asked of [malloc] by the fallback. *)
Definition raw_size (size alignment : Z) : Z :=
  uword (pointer_model P) (size + alignment + sizeof_ptr (pointer_model P)).

Definition hal_malloc_aligned (size alignment : Z) (s : hal_state)
  : Z * hal_state :=
  if HAS_POSIX_MEMALIGN P then
    let '(rc, ptr) := posix_memalign P alignment size (os_step s) in
    if rc =? 0 then (ptr, os_call s) else (0, os_call s)
  else
    let raw := malloc P (raw_size size alignment) (os_step s) in
    let s1 := os_call s in
    if raw =? 0 then (0, s1)
    else
      let W := pointer_model P in
      let addr := uword W (raw + sizeof_ptr W) in
      let aligned := align_up addr alignment in
      let slot := uword W (aligned - sizeof_ptr W) in
      (aligned, set_heap (<[slot := raw]> (heap s1)) s1).

(** [None] when the fallback reads a slot that holds no pointer (the
    behaviour of the C program is then undefined). *)
Definition hal_free_aligned (ptr : Z) (s : hal_state) : option hal_state :=
  if ptr =? 0 then Some s
  else if HAS_POSIX_MEMALIGN P then Some (set_released (ptr :: released s) s)
  else
    let W := pointer_model P in
    match heap s !! uword W (ptr - sizeof_ptr W) with
    | Some raw => Some (set_released (raw :: released s) s)
    | None => None
    end.

End Hal.

(** ** What is assumed of the operating system *)

(** Order on clock readings, and the value of a reading in nanoseconds. *)
Definition timespec_le (a b : timespec) : Prop :=
  tv_sec a < tv_sec b \/ (tv_sec a = tv_sec b /\ tv_nsec a <= tv_nsec b).

Definition timespec_ns (ts : timespec) : Z :=
  tv_sec ts * 1000000000 + tv_nsec ts.

(** A normalised reading whose value in microseconds fits in 64 bits. *)
Definition timespec_ok (ts : timespec) : Prop :=
  0 <= tv_sec ts /\ 0 <= tv_nsec ts < 1000000000 /\
  tv_sec ts * 1000000 + tv_nsec ts / 1000 <= UINT64_MAX.

(** Each clock taken alone never runs backward. *)
Definition clock_nondecreasing (P : platform) : Prop :=
  forall (c : clockid_t) (i j : nat) (a b : timespec),
    (i <= j)%nat ->
    clock_gettime P c i = Some a -> clock_gettime P c j = Some b ->
    timespec_le a b.

Definition clock_in_range (P : platform) : Prop :=
  forall (c : clockid_t) (n : nat) (ts : timespec),
    clock_gettime P c n = Some ts -> timespec_ok ts.

(** The clock that [hal_get_timestamp_us] asks first. *)
Definition primary_clock (P : platform) : clockid_t :=
  if HAS_CLOCK_MONOTONIC_RAW P then CLOCK_MONOTONIC_RAW else CLOCK_MONOTONIC.

Definition clock_always_answers (P : platform) : Prop :=
  forall n : nat, exists ts : timespec,
    clock_gettime P (primary_clock P) n = Some ts.

(** The clock that answers the call of [hal_get_timestamp_us] made at step
    [n]; [None] when the call returns the sentinel 0. *)
Definition clock_source (P : platform) (n : nat) : option clockid_t :=
  if HAS_CLOCK_MONOTONIC_RAW P then
    match clock_gettime P CLOCK_MONOTONIC_RAW n with
    | Some _ => Some CLOCK_MONOTONIC_RAW
    | None =>
        match clock_gettime P CLOCK_MONOTONIC (S n) with
        | Some _ => Some CLOCK_MONOTONIC
        | None => None
        end
    end
  else
    match clock_gettime P CLOCK_MONOTONIC n with
    | Some _ => Some CLOCK_MONOTONIC
    | None => None
    end.

(** What [hal_get_timestamp_us] returns at step [n] when the first clock
    answers. *)
Definition reading (P : platform) (n : nat) : Z :=
  match clock_gettime P (primary_clock P) n with
  | Some ts => timespec_to_us ts
  | None => 0
  end.

(** POSIX on [nanosleep]: when it returns 0 the requested time has passed
    between any reading taken before the call and any reading taken after. *)
Definition nanosleep_contract (P : platform) : Prop :=
  forall (req : timespec) (n : nat),
    nanosleep P req n = 0 ->
    forall (c : clockid_t) (i j : nat) (a b : timespec),
      (i < n)%nat -> (n < j)%nat ->
      clock_gettime P c i = Some a -> clock_gettime P c j = Some b ->
      timespec_ns a + timespec_ns req <= timespec_ns b.

(** POSIX on [posix_memalign]: a successful call gives a multiple of the
    alignment. *)
Definition posix_memalign_contract (P : platform) : Prop :=
  forall (alignment size : Z) (n : nat),
    fst (posix_memalign P alignment size n) = 0 ->
    snd (posix_memalign P alignment size n) mod alignment = 0.

(** C on [malloc]: a block that is not null lies in the address space. *)
Definition malloc_contract (P : platform) : Prop :=
  forall (size : Z) (n : nat),
    malloc P size n <> 0 ->
    0 < malloc P size n /\
    malloc P size n + size <= 2 ^ word_bits (pointer_model P).

(** ** Example platforms *)

(** A reading of [us] microseconds. *)
Definition timespec_of_us (us : Z) : timespec :=
  {| tv_sec := us / 1000000; tv_nsec := us mod 1000000 * 1000 |}.

(** The time of an example platform at step [n]: [pace] microseconds per
    call to the operating system, for the first [2 ^ 40] calls. *)
Definition example_time (pace : Z) (n : nat) : Z :=
  pace * Z.min (Z.of_nat n) (2 ^ 40).

(** Every call to the operating system takes one microsecond, and every
    [nanosleep] is cut short by a signal as soon as it starts; blocks of at
    most 1 MiB are served at address 4096 by [malloc], which is the only
    allocator. *)
Definition signal_platform : platform :=
  {| HAS_CLOCK_MONOTONIC_RAW := true;
     HAS_POSIX_MEMALIGN := false;
     pointer_model := LP64;
     clock_gettime := fun _ n => Some (timespec_of_us (example_time 1 n));
     nanosleep := fun _ _ => -1;
     malloc := fun size _ => if size <=? 2 ^ 20 then 4096 else 0;
     posix_memalign := fun _ _ _ => (12, 0) |}.

(** Every call to the operating system takes one second; a sleep of at most
    one second runs to completion.  [posix_memalign] serves multiples of
    [sizeof(void* )] at 64 times the alignment. *)
Definition quiet_platform : platform :=
  {| HAS_CLOCK_MONOTONIC_RAW := true;
     HAS_POSIX_MEMALIGN := true;
     pointer_model := LP64;
     clock_gettime := fun _ n =>
       Some (timespec_of_us (example_time 1000000 n));
     nanosleep := fun req n =>
       if (timespec_ns req <=? 1000000000) && (Z.of_nat n <? 2 ^ 40)
       then 0 else -1;
     malloc := fun size _ => if size <=? 2 ^ 20 then 4096 else 0;
     posix_memalign := fun alignment size _ =>
       if (0 <? alignment) && (alignment mod 8 =? 0)
       then (0, 64 * alignment) else (22, 0) |}.

(** [CLOCK_MONOTONIC_RAW] answers the first call with 10 s, and no clock
    answers afterwards. *)
Definition failing_clock_platform : platform :=
  {| HAS_CLOCK_MONOTONIC_RAW := true;
     HAS_POSIX_MEMALIGN := true;
     pointer_model := LP64;
     clock_gettime := fun c n =>
       match c, n with
       | CLOCK_MONOTONIC_RAW, O => Some {| tv_sec := 10; tv_nsec := 0 |}
       | _, _ => None
       end;
     nanosleep := fun _ _ => 0;
     malloc := fun _ _ => 0;
     posix_memalign := fun _ _ _ => (12, 0) |}.

(** ** The processor

    What [hal_get_cycle_count] and the cache functions take from the target:
    the architecture the file is compiled for, and the counter register of
    that architecture (the time-stamp counter read by [__rdtsc], the virtual
    counter [cntvct_el0]).  [cycle_register n] is the value the register
    shows when it is read at step [n]; reading it is one more step.  On the
    other targets the count comes from [clock_gettime], whose return value
    the code does not look at: [stale_timespec n] is what the local [ts] holds
    when the call at step [n] fails and leaves it unwritten. *)

Inductive arch_t : Set :=
| ARCH_X86_64
| ARCH_I386
| ARCH_AARCH64
| ARCH_ARM32
| ARCH_GENERIC.

(** The two macros of the platform detection. *)
Definition ARCH_X86 (a : arch_t) : bool :=
  match a with
  | ARCH_X86_64 | ARCH_I386 => true
  | _ => false
  end.

Definition ARCH_ARM (a : arch_t) : bool :=
  match a with
  | ARCH_AARCH64 | ARCH_ARM32 => true
  | _ => false
  end.

Definition is_aarch64 (a : arch_t) : bool :=
  match a with
  | ARCH_AARCH64 => true
  | _ => false
  end.

Record processor : Type := mk_processor {
  architecture : arch_t;
  cycle_register : nat -> Z;
  stale_timespec : nat -> timespec
}.

Section Cycles.

Variables (C : processor) (P : platform).

(** [(uint64_t)ts.tv_sec * 1000000000ULL + (uint64_t)ts.tv_nsec] *)
Definition timespec_to_cycles (ts : timespec) : Z :=
  u64 (u64 (u64 (tv_sec ts) * 1000000000) + u64 (tv_nsec ts)).

Definition hal_get_cycle_count (s : hal_state) : Z * hal_state :=
  if ARCH_X86 (architecture C) then
    (u64 (cycle_register C (os_step s)), os_call s)
  else if ARCH_ARM (architecture C) && is_aarch64 (architecture C) then
    (u64 (cycle_register C (os_step s)), os_call s)
  else
    let ts := match clock_gettime P CLOCK_MONOTONIC (os_step s) with
              | Some ts => ts
              | None => stale_timespec C (os_step s)
              end in
    (timespec_to_cycles ts, os_call s).

(** [while (hal_get_cycle_count() < target_cycles) hal_spin_hint();] with at
    most [fuel] evaluations of the loop condition. *)
Fixpoint cycle_wait (fuel : nat) (target_cycles : Z) (s : hal_state)
  : option hal_state :=
  match fuel with
  | O => None
  | S fuel' =>
      let '(now, s1) := hal_get_cycle_count s in
      if now <? target_cycles
      then cycle_wait fuel' target_cycles (hal_spin_hint s1)
      else Some s1
  end.

(** [delay_ns] is a [uint32_t] and [cycles_per_ns] a [uint64_t]: the product
    and the sum are taken on 64 bits. *)
Definition hal_delay_ns (fuel : nat) (delay_ns : Z) (s : hal_state)
  : option hal_state :=
  let cycles_per_ns := 2 in
  let '(c0, s1) := hal_get_cycle_count s in
  let target_cycles := u64 (c0 + u64 (delay_ns * cycles_per_ns)) in
  cycle_wait fuel target_cycles s1.

(** What [hal_get_cycle_count] returns at step [n]. *)
Definition cycle_reading (n : nat) : Z :=
  fst (hal_get_cycle_count (set_os_step n hal_boot)).

(** ** Barriers and cache maintenance

    The barriers and the cache operations act on the processor, not on the
    variables of the program: each function is the list of the operations
    it issues, in order. *)

Inductive hw_op : Set :=
| CompilerBarrier
| DmbSy
| SyncSynchronize
| Msync (addr size : Z)
| ClearCache (first last : Z).

(** [__asm__ volatile("" ::: "memory")] *)
Definition hal_memory_barrier : list hw_op := [CompilerBarrier].

Definition hal_dmb : list hw_op :=
  if ARCH_ARM (architecture C) then [DmbSy] else [SyncSynchronize].

(** [__linux__] is the macro under which [HAS_CLOCK_MONOTONIC_RAW] is
    defined. *)
Definition hal_cache_flush (addr size : Z) : list hw_op :=
  hal_memory_barrier ++
  (if HAS_CLOCK_MONOTONIC_RAW P then [Msync addr size]
   else if ARCH_ARM (architecture C)
        then [ClearCache addr (uword (pointer_model P) (addr + size))]
        else []) ++
  hal_dmb.

Definition hal_cache_invalidate (addr size : Z) : list hw_op :=
  hal_dmb ++
  (if ARCH_ARM (architecture C)
   then [ClearCache addr (uword (pointer_model P) (addr + size))]
   else []) ++
  hal_memory_barrier.

End Cycles.

Definition is_barrier (op : hw_op) : bool :=
  match op with
  | CompilerBarrier | DmbSy | SyncSynchronize => true
  | Msync _ _ | ClearCache _ _ => false
  end.

(** A barrier the processor itself obeys. *)
Definition is_hardware_barrier (op : hw_op) : bool :=
  match op with
  | DmbSy | SyncSynchronize => true
  | _ => false
  end.

(** ** The unit tests ([test_system_hal.c]) *)

(** [memset(ptr, value, n)]: [n] bytes from [ptr] on. *)
Fixpoint memset (h : gmap Z Z) (ptr value : Z) (n : nat) : gmap Z Z :=
  match n with
  | O => h
  | S n' => memset (<[ptr := value]> h) (ptr + 1) value n'
  end.

Section Tests.

Variable P : platform.

(** [test_timestamp]: 1 for [TEST_FAIL], 0 for [TEST_PASS]. *)
Definition test_timestamp (fuel : nat) (s : hal_state) : option Z :=
  match measure_delay P fuel 1000 s with
  | Some diff => Some (if (diff <? 900) || (1100 <? diff) then 1 else 0)
  | None => None
  end.

(** [test_aligned_malloc]; [None] when the free is undefined. *)
Definition test_aligned_malloc (s : hal_state) : option (Z * hal_state) :=
  let alignment := 64 in
  let '(ptr, s1) := hal_malloc_aligned P 1024 alignment s in
  if ptr =? 0 then Some (1, s1)
  else if negb (ptr mod alignment =? 0) then
    match hal_free_aligned P ptr s1 with
    | Some s2 => Some (1, s2)
    | None => None
    end
  else
    let s2 := set_heap (memset (heap s1) ptr 170 1024) s1 in
    match hal_free_aligned P ptr s2 with
    | Some s3 => Some (0, s3)
    | None => None
    end.

(** [test_interrupt_control] *)
Definition test_interrupt_control (s : hal_state) : Z * hal_state :=
  let '(state, s1) := hal_disable_interrupts s in
  let s2 := hal_restore_interrupts state s1 in
  let s3 := hal_enter_critical s2 in
  (0, hal_exit_critical s3).

End Tests.

(** A reading whose value in nanoseconds fits in 64 bits. *)
Definition timespec_cycles_ok (ts : timespec) : Prop :=
  0 <= tv_sec ts /\ 0 <= tv_nsec ts < 1000000000 /\
  timespec_ns ts <= UINT64_MAX.

(** A processor of each kind for the examples: a counter register that
    advances by 3 at each read (for the first [2 ^ 40] reads). *)
Definition x86_processor : processor :=
  {| architecture := ARCH_X86_64;
     cycle_register := fun n => example_time 3 n;
     stale_timespec := fun _ => {| tv_sec := 0; tv_nsec := 0 |} |}.

Definition generic_processor : processor :=
  {| architecture := ARCH_GENERIC;
     cycle_register := fun _ => 0;
     stale_timespec := fun _ => {| tv_sec := 0; tv_nsec := 0 |} |}.

(** A platform whose [malloc] hands out a fresh 1 MiB region at each call
    (for blocks of at most 1 MiB, and the first [2 ^ 30] calls); its clocks
    are those of the platform of the signals. *)
Definition bump_platform : platform :=
  {| HAS_CLOCK_MONOTONIC_RAW := true;
     HAS_POSIX_MEMALIGN := false;
     pointer_model := LP64;
     clock_gettime := clock_gettime signal_platform;
     nanosleep := fun _ _ => -1;
     malloc := fun size n =>
       if (size <=? 2 ^ 20) && (Z.of_nat n <? 2 ^ 30)
       then 4096 + 2 ^ 20 * Z.of_nat n else 0;
     posix_memalign := fun _ _ _ => (12, 0) |}.

(** ** Measurements and outcomes used by the properties *)

(** A timestamp before [hal_dma_wait], one after it: the status returned and
    the difference of the two as a [uint64_t]. *)
Definition measure_dma_wait (P : platform) (fuel : nat)
  (dma_id timeout_us : Z) (s : hal_state) : option (hal_status_t * Z) :=
  let '(t1, s1) := hal_get_timestamp_us P s in
  match hal_dma_wait P fuel dma_id timeout_us s1 with
  | Some (st, s2) =>
      let '(t2, _) := hal_get_timestamp_us P s2 in Some (st, u64 (t2 - t1))
  | None => None
  end.

(** The call made to the operating system at step [n] took at least [req]
    as clock [c] shows it: between any reading of [c] taken before the call
    and any reading taken after it, [req] has passed. *)
Definition sleep_lasted_on (P : platform) (c : clockid_t) (n : nat)
  (req : timespec) : Prop :=
  forall (i j : nat) (a b : timespec),
    (i < n)%nat -> (n < j)%nat ->
    clock_gettime P c i = Some a -> clock_gettime P c j = Some b ->
    timespec_ns a + timespec_ns req <= timespec_ns b.

(** The pointer-sized slot in which the fallback of [hal_malloc_aligned]
    stores the raw pointer lies inside the block [malloc] returned. *)
Definition stash_in_bounds (P : platform) (size alignment : Z)
  (s : hal_state) : bool :=
  let W := pointer_model P in
  let raw := malloc P (raw_size P size alignment) (os_step s) in
  let aligned := align_up P (uword W (raw + sizeof_ptr W)) alignment in
  let slot := uword W (aligned - sizeof_ptr W) in
  (raw <=? slot) && (slot + sizeof_ptr W <=? raw + raw_size P size alignment).

(** [hal_malloc_aligned] with the store outside the raw block as an outcome
    of its own: [None] when the fallback writes the raw pointer to memory it
    did not allocate, where the C program has no defined behaviour. *)
Definition hal_malloc_aligned_checked (P : platform) (size alignment : Z)
  (s : hal_state) : option (Z * hal_state) :=
  if HAS_POSIX_MEMALIGN P then Some (hal_malloc_aligned P size alignment s)
  else if malloc P (raw_size P size alignment) (os_step s) =? 0
  then Some (hal_malloc_aligned P size alignment s)
  else if stash_in_bounds P size alignment s
  then Some (hal_malloc_aligned P size alignment s)
  else None.

(** A Linux platform on which [CLOCK_MONOTONIC_RAW] runs behind
    [CLOCK_MONOTONIC]: the call made at step 2 takes 20001 microseconds of
    [CLOCK_MONOTONIC] and 19991 of [CLOCK_MONOTONIC_RAW], every other call
    one microsecond of both, and [nanosleep] returns 0. *)
Definition slewed_platform : platform :=
  {| HAS_CLOCK_MONOTONIC_RAW := true;
     HAS_POSIX_MEMALIGN := true;
     pointer_model := LP64;
     clock_gettime := fun c n =>
       let base := example_time 1 n in
       let slept := match c with
                    | CLOCK_MONOTONIC => 20000
                    | CLOCK_MONOTONIC_RAW => 19990
                    end in
       Some (timespec_of_us (if (2 <? Z.of_nat n) then slept + base else base));
     nanosleep := fun _ _ => 0;
     malloc := fun _ _ => 0;
     posix_memalign := fun _ _ _ => (12, 0) |}.

(** * Properties *)

(** ** Machine integers *)

Lemma u32_small (x : Z) : in_u32 x -> u32 x = x.
Proof. unfold in_u32, UINT32_MAX, u32. intros H. apply Z.mod_small. lia. Qed.

Lemma u32_range (x : Z) : in_u32 (u32 x).
Proof.
  unfold in_u32, UINT32_MAX, u32.
  pose proof (Z.mod_pos_bound x (2 ^ 32) ltac:(lia)). lia.
Qed.

Lemma u64_small (x : Z) : in_u64 x -> u64 x = x.
Proof. unfold in_u64, UINT64_MAX, u64. intros H. apply Z.mod_small. lia. Qed.

Lemma u64_range (x : Z) : in_u64 (u64 x).
Proof.
  unfold in_u64, UINT64_MAX, u64.
  pose proof (Z.mod_pos_bound x (2 ^ 64) ltac:(lia)). lia.
Qed.

(** Closes a range condition on concrete machine integers. *)
Ltac by_range :=
  unfold in_u32, in_u64, UINT32_MAX, UINT64_MAX in *; simpl in *; lia.

(** Linear arithmetic with division and remainder by constants. *)
Ltac lia_div := Z.div_mod_to_equations; lia.

(** ** The interrupt-nesting counter *)

Section Interrupts.

Implicit Types (s : hal_state) (l : list irq_call) (c : irq_call).

Lemma restore_counter (token : Z) s :
  g_interrupt_nesting (hal_restore_interrupts token s) =
  if 0 <? g_interrupt_nesting s then u32 (g_interrupt_nesting s - 1)
  else g_interrupt_nesting s.
Proof.
  unfold hal_restore_interrupts.
  destruct (0 <? g_interrupt_nesting s); reflexivity.
Qed.

(** What one call does to the counter. *)
Lemma irq_step_counter s c :
  g_interrupt_nesting (irq_step s c) =
  if opens c then u32 (g_interrupt_nesting s + 1)
  else if 0 <? g_interrupt_nesting s then u32 (g_interrupt_nesting s - 1)
  else g_interrupt_nesting s.
Proof.
  destruct c; simpl; try reflexivity;
    unfold hal_exit_critical; apply restore_counter.
Qed.

Lemma irq_step_in_u32 s c :
  in_u32 (g_interrupt_nesting s) -> in_u32 (g_interrupt_nesting (irq_step s c)).
Proof.
  intros H. rewrite irq_step_counter.
  destruct (opens c); [apply u32_range|].
  destruct (0 <? g_interrupt_nesting s); [apply u32_range | exact H].
Qed.

Lemma irq_run_in_u32 l : forall s,
  in_u32 (g_interrupt_nesting s) -> in_u32 (g_interrupt_nesting (irq_run l s)).
Proof.
  induction l as [|c l IH]; intros s H; simpl; [exact H|].
  apply IH, irq_step_in_u32, H.
Qed.

(** A well-nested run started with [depth] sections open closes them all,
    as long as the counter never reaches the end of its range. *)
Lemma irq_run_well_nested l : forall (depth : nat) s,
  well_nested depth l = true ->
  Z.of_nat depth <= g_interrupt_nesting s ->
  g_interrupt_nesting s + Z.of_nat (count_opens l) <= UINT32_MAX ->
  g_interrupt_nesting (irq_run l s) = g_interrupt_nesting s - Z.of_nat depth.
Proof.
  induction l as [|c l IH]; intros depth s Hwn Hd Hmax; simpl in *.
  - apply Nat.eqb_eq in Hwn. subst depth. lia.
  - pose proof (irq_step_counter s c) as Hstep.
    destruct (opens c).
    + rewrite u32_small in Hstep by (unfold in_u32; lia).
      rewrite (IH (S depth)); [lia | exact Hwn | lia | lia].
    + destruct depth as [|d]; [discriminate|].
      destruct (Z.ltb_spec 0 (g_interrupt_nesting s)) as [Hpos|Hneg]; [|lia].
      rewrite u32_small in Hstep by (unfold in_u32; lia).
      rewrite (IH d); [lia | exact Hwn | lia | lia].
Qed.

(** In a well-nested run the calls that open and the calls that close are
    equally many: it is a run of N disables and N restores. *)
Lemma well_nested_counts l : forall depth : nat,
  well_nested depth l = true ->
  (depth + count_opens l = count_closes l)%nat.
Proof.
  induction l as [|c l IH]; intros depth Hwn; simpl in *.
  - apply Nat.eqb_eq in Hwn. lia.
  - destruct (opens c).
    + specialize (IH _ Hwn). lia.
    + destruct depth as [|d]; [discriminate|]. specialize (IH _ Hwn). lia.
Qed.

(** Disables alone count up, so every value of the range is reached from
    the start of the program. *)
Lemma disables_count_up (n : nat) : forall s,
  in_u32 (g_interrupt_nesting s) ->
  g_interrupt_nesting s + Z.of_nat n <= UINT32_MAX ->
  g_interrupt_nesting (irq_run (repeat Disable n) s)
  = g_interrupt_nesting s + Z.of_nat n.
Proof.
  induction n as [|n IH]; intros s Hs Hmax; simpl; [lia|].
  rewrite IH; simpl.
  - rewrite u32_small by (unfold in_u32 in *; lia). lia.
  - apply u32_range.
  - rewrite u32_small by (unfold in_u32 in *; lia). lia.
Qed.

(** The calls leave the rest of the process state alone. *)
Lemma irq_step_frame s c :
  set_interrupt_nesting (g_interrupt_nesting s) (irq_step s c) = s.
Proof.
  destruct s as [i t n h r o].
  destruct c; simpl; unfold hal_exit_critical, hal_restore_interrupts; simpl;
    try reflexivity; destruct (0 <? n); reflexivity.
Qed.

End Interrupts.

(** C1, as the code has it.  The counter starts at 0.  A disable returns the
    value the counter had and adds one to it (as a [uint32_t]); a restore
    takes one off exactly when the counter is above 0 and does nothing at 0.
    A run of N disables and N restores in which every restore comes after a
    disable it can close, started where the N disables fit below the end of
    the range, brings the counter back to where it was; and no run at all
    takes the counter out of [0, UINT32_MAX]. *)
Theorem interrupt_nesting_discipline :
  g_interrupt_nesting hal_boot = 0 /\
  (forall s : hal_state,
     fst (hal_disable_interrupts s) = g_interrupt_nesting s /\
     g_interrupt_nesting (snd (hal_disable_interrupts s)) =
       u32 (g_interrupt_nesting s + 1)) /\
  (forall (token : Z) (s : hal_state),
     in_u32 (g_interrupt_nesting s) ->
     g_interrupt_nesting (hal_restore_interrupts token s) =
       if 0 <? g_interrupt_nesting s then g_interrupt_nesting s - 1
       else g_interrupt_nesting s) /\
  (forall (l : list irq_call) (s : hal_state),
     forallb is_raw l = true ->
     well_nested 0 l = true ->
     in_u32 (g_interrupt_nesting s) ->
     g_interrupt_nesting s + Z.of_nat (count_opens l) <= UINT32_MAX ->
     count_opens l = count_closes l /\
     g_interrupt_nesting (irq_run l s) = g_interrupt_nesting s) /\
  (forall (l : list irq_call) (s : hal_state),
     in_u32 (g_interrupt_nesting s) ->
     0 <= g_interrupt_nesting (irq_run l s) <= UINT32_MAX).
Proof.
  split; [reflexivity|].
  split; [intros s; split; reflexivity|].
  split.
  { intros token s Hs. rewrite restore_counter.
    destruct (Z.ltb_spec 0 (g_interrupt_nesting s)) as [Hpos|Hz];
      [|reflexivity].
    apply u32_small. unfold in_u32 in *. lia. }
  split.
  { intros l s _ Hwn Hs Hmax. split.
    - apply (well_nested_counts l 0 Hwn).
    - rewrite (irq_run_well_nested l 0 s Hwn); unfold in_u32 in Hs; lia. }
  intros l s Hs. apply (irq_run_in_u32 l s Hs).
Qed.

Lemma interrupt_nesting_discipline_witness :
  g_interrupt_nesting
    (irq_run [Disable; Disable; Restore 1; Disable; Restore 0; Restore 7]
       hal_boot) = 0 /\
  g_interrupt_nesting (hal_restore_interrupts 5 hal_boot) = 0 /\
  0 <= g_interrupt_nesting (irq_run [Restore 0; Restore 0; Disable] hal_boot)
    <= UINT32_MAX.
Proof.
  destruct interrupt_nesting_discipline as (_ & _ & Hrestore & Hrun & Hrange).
  split; [|split].
  - apply (Hrun [Disable; Disable; Restore 1; Disable; Restore 0; Restore 7]
             hal_boot); try reflexivity; by_range.
  - apply (Hrestore 5 hal_boot). by_range.
  - apply (Hrange [Restore 0; Restore 0; Disable] hal_boot).
    by_range.
Defined.

(** C1 as it is worded fails: one restore followed by one disable is a run
    of one disable and one restore, and it takes the counter from 0 to 1. *)
Lemma restore_before_disable_unbalanced :
  forallb is_raw [Restore 0; Disable] = true /\
  count_opens [Restore 0; Disable] = 1%nat /\
  count_closes [Restore 0; Disable] = 1%nat /\
  g_interrupt_nesting hal_boot = 0 /\
  g_interrupt_nesting (irq_run [Restore 0; Disable] hal_boot) = 1.
Proof. repeat split; reflexivity. Qed.

(** At the end of the range a disable wraps the counter to 0, and the
    restore that follows finds nothing to close. *)
Lemma disable_wraps_at_uint32_max :
  g_interrupt_nesting
    (irq_run [Disable; Restore 0] (set_interrupt_nesting UINT32_MAX hal_boot))
  = 0.
Proof. reflexivity. Qed.

(** C6.  What [hal_restore_interrupts] does to the process does not depend
    on the token it is given: two calls from the same state with any two
    tokens end in the same state. *)
Theorem restore_ignores_token (s : hal_state) (t1 t2 : Z) :
  hal_restore_interrupts t1 s = hal_restore_interrupts t2 s.
Proof. unfold hal_restore_interrupts. reflexivity. Qed.

(** C7, as the code has it.  [hal_enter_critical] leaves the state that
    [hal_disable_interrupts] leaves, [hal_exit_critical] the state that
    [hal_restore_interrupts(0)] leaves; entering and leaving a critical
    section gives back the state it started from whenever the counter is
    below [UINT32_MAX]; and any well-nested mix of critical sections and raw
    disable/restore calls brings the counter back, as long as the sections
    opened fit below the end of the range. *)
Theorem critical_section_nesting :
  (forall s : hal_state,
     hal_enter_critical s = snd (hal_disable_interrupts s)) /\
  (forall s : hal_state,
     hal_exit_critical s = hal_restore_interrupts 0 s) /\
  (forall s : hal_state,
     0 <= g_interrupt_nesting s < UINT32_MAX ->
     hal_exit_critical (hal_enter_critical s) = s) /\
  (forall (l : list irq_call) (s : hal_state),
     well_nested 0 l = true ->
     in_u32 (g_interrupt_nesting s) ->
     g_interrupt_nesting s + Z.of_nat (count_opens l) <= UINT32_MAX ->
     g_interrupt_nesting (irq_run l s) = g_interrupt_nesting s).
Proof.
  split; [reflexivity|]. split; [reflexivity|]. split.
  - intros s Hs. destruct s as [i t n h r o]; simpl in Hs.
    unfold hal_exit_critical, hal_enter_critical, hal_restore_interrupts,
      hal_disable_interrupts; simpl.
    rewrite (u32_small (n + 1)) by by_range.
    destruct (Z.ltb_spec 0 (n + 1)) as [_|Hneg]; [|lia].
    unfold set_interrupt_nesting; simpl. f_equal.
    replace (n + 1 - 1) with n by lia. apply u32_small. by_range.
  - intros l s Hwn Hs Hmax.
    rewrite (irq_run_well_nested l 0 s Hwn); unfold in_u32 in Hs; lia.
Qed.

Lemma critical_section_nesting_witness :
  hal_exit_critical (hal_enter_critical hal_boot) = hal_boot /\
  g_interrupt_nesting
    (irq_run [EnterCritical; Disable; ExitCritical; Restore 0] hal_boot) = 0.
Proof.
  destruct critical_section_nesting as (_ & _ & Hpair & Hmix).
  split.
  - apply (Hpair hal_boot). by_range.
  - apply (Hmix [EnterCritical; Disable; ExitCritical; Restore 0] hal_boot);
      try reflexivity; by_range.
Defined.

(** C7 as it is worded fails at the end of the range: from a counter of
    [UINT32_MAX] the pair enter, exit leaves 0. *)
Lemma critical_pair_not_neutral_at_max :
  g_interrupt_nesting (set_interrupt_nesting UINT32_MAX hal_boot)
  = UINT32_MAX /\
  g_interrupt_nesting
    (hal_exit_critical
       (hal_enter_critical (set_interrupt_nesting UINT32_MAX hal_boot))) = 0.
Proof. split; reflexivity. Qed.

(** ** Timestamps *)

Section Timing.

Variable P : platform.
Implicit Types (s : hal_state) (ts : timespec).

Lemma timespec_to_us_ok ts :
  timespec_ok ts ->
  timespec_to_us ts = tv_sec ts * 1000000 + tv_nsec ts / 1000.
Proof.
  intros (Hsec & Hns & Hmax). unfold timespec_to_us.
  assert (0 <= tv_nsec ts / 1000 < 1000000) by lia_div.
  rewrite (u64_small (tv_sec ts)) by by_range.
  rewrite (u64_small (tv_sec ts * 1000000)) by by_range.
  rewrite (u64_small (tv_nsec ts)) by by_range.
  apply u64_small. by_range.
Qed.

Lemma timespec_to_us_ns ts :
  timespec_ok ts -> timespec_to_us ts = timespec_ns ts / 1000.
Proof.
  intros Hok. rewrite (timespec_to_us_ok ts Hok).
  unfold timespec_ns. destruct Hok as (Hsec & Hns & _). lia_div.
Qed.

Lemma timespec_to_us_range ts : in_u64 (timespec_to_us ts).
Proof. apply u64_range. Qed.

Lemma timespec_to_us_mono (a b : timespec) :
  timespec_ok a -> timespec_ok b -> timespec_le a b ->
  timespec_to_us a <= timespec_to_us b.
Proof.
  intros Ha Hb Hle.
  rewrite (timespec_to_us_ok a Ha), (timespec_to_us_ok b Hb).
  destruct Ha as (_ & Hna & _), Hb as (_ & Hnb & _).
  destruct Hle as [Hlt | [Heq Hle]]; lia_div.
Qed.

(** A call costs one step when the first clock answers, two otherwise. *)
Lemma timestamp_steps s :
  (os_step s < os_step (snd (hal_get_timestamp_us P s)))%nat.
Proof.
  unfold hal_get_timestamp_us, timestamp_fallback.
  destruct (HAS_CLOCK_MONOTONIC_RAW P);
    repeat match goal with
           | |- context [match ?x with _ => _ end] => destruct x
           end; simpl; lia.
Qed.

(** The value returned, read off the clock that answers. *)
Lemma timestamp_by_source s :
  match clock_source P (os_step s) with
  | Some CLOCK_MONOTONIC_RAW =>
      exists ts, clock_gettime P CLOCK_MONOTONIC_RAW (os_step s) = Some ts /\
                 fst (hal_get_timestamp_us P s) = timespec_to_us ts
  | Some CLOCK_MONOTONIC =>
      exists ts (n : nat),
        (os_step s <= n)%nat /\
        (n < os_step (snd (hal_get_timestamp_us P s)))%nat /\
        clock_gettime P CLOCK_MONOTONIC n = Some ts /\
        fst (hal_get_timestamp_us P s) = timespec_to_us ts
  | None => fst (hal_get_timestamp_us P s) = 0
  end.
Proof.
  unfold clock_source, hal_get_timestamp_us, timestamp_fallback.
  destruct (HAS_CLOCK_MONOTONIC_RAW P).
  - destruct (clock_gettime P CLOCK_MONOTONIC_RAW (os_step s))
      as [ts|] eqn:Hraw.
    + exists ts. split; reflexivity.
    + simpl.
      destruct (clock_gettime P CLOCK_MONOTONIC (S (os_step s)))
        as [ts|] eqn:Hm.
      * exists ts, (S (os_step s)). simpl. repeat split; try lia. exact Hm.
      * reflexivity.
  - destruct (clock_gettime P CLOCK_MONOTONIC (os_step s)) as [ts|] eqn:Hm.
    + exists ts, (os_step s). simpl. repeat split; try lia. exact Hm.
    + reflexivity.
Qed.

Lemma timestamp_range s : in_u64 (fst (hal_get_timestamp_us P s)).
Proof.
  unfold hal_get_timestamp_us, timestamp_fallback.
  destruct (HAS_CLOCK_MONOTONIC_RAW P);
    repeat match goal with
           | |- context [match ?x with _ => _ end] => destruct x
           end; simpl; try apply u64_range; by_range.
Qed.

End Timing.

(** ** The example platforms keep the contracts *)

Lemma timespec_of_us_ok (us : Z) :
  0 <= us <= UINT64_MAX -> timespec_ok (timespec_of_us us).
Proof.
  intros Hus. unfold timespec_ok, timespec_of_us; simpl.
  unfold UINT64_MAX in *. repeat split; lia_div.
Qed.

Lemma timespec_of_us_le (a b : Z) :
  0 <= a <= b -> timespec_le (timespec_of_us a) (timespec_of_us b).
Proof.
  intros Hab. unfold timespec_le, timespec_of_us; simpl.
  destruct (Z.eq_dec (a / 1000000) (b / 1000000)) as [Heq|Hne].
  - right. split; [exact Heq|]. lia_div.
  - left. lia_div.
Qed.

Lemma timespec_of_us_value (us : Z) :
  0 <= us <= UINT64_MAX -> timespec_to_us (timespec_of_us us) = us.
Proof.
  intros Hus. rewrite timespec_to_us_ok by (apply timespec_of_us_ok, Hus).
  unfold timespec_of_us; simpl. lia_div.
Qed.

Lemma example_time_range (pace : Z) (n : nat) :
  0 <= pace <= 1000000 -> 0 <= example_time pace n <= UINT64_MAX.
Proof.
  intros Hp. unfold example_time, UINT64_MAX.
  assert (0 <= Z.min (Z.of_nat n) (2 ^ 40) <= 2 ^ 40) by lia.
  nia.
Qed.

Lemma example_time_mono (pace : Z) (i j : nat) :
  0 <= pace -> (i <= j)%nat -> example_time pace i <= example_time pace j.
Proof. intros Hp Hij. unfold example_time. nia. Qed.

(** A platform whose clocks all show [example_time pace] keeps the clock
    contracts. *)
Section PacedClock.

Variables (P : platform) (pace : Z).
Hypothesis Hpace : 0 <= pace <= 1000000.
Hypothesis Hclock : forall (c : clockid_t) (n : nat),
  clock_gettime P c n = Some (timespec_of_us (example_time pace n)).

Lemma paced_clock_nondecreasing : clock_nondecreasing P.
Proof.
  intros c i j a b Hij Ha Hb. rewrite Hclock in Ha, Hb.
  injection Ha as <-. injection Hb as <-.
  apply timespec_of_us_le. split.
  - apply (example_time_range pace i Hpace).
  - apply example_time_mono; lia.
Qed.

Lemma paced_clock_in_range : clock_in_range P.
Proof.
  intros c n ts Hts. rewrite Hclock in Hts. injection Hts as <-.
  apply timespec_of_us_ok, example_time_range, Hpace.
Qed.

Lemma paced_clock_answers : clock_always_answers P.
Proof. intros n. eexists. apply Hclock. Qed.

Lemma paced_clock_reading (n : nat) : reading P n = example_time pace n.
Proof.
  unfold reading. rewrite Hclock.
  apply timespec_of_us_value, example_time_range, Hpace.
Qed.

End PacedClock.

Lemma signal_platform_nondecreasing : clock_nondecreasing signal_platform.
Proof.
  apply (paced_clock_nondecreasing signal_platform 1); [lia | reflexivity].
Qed.

Lemma signal_platform_in_range : clock_in_range signal_platform.
Proof. apply (paced_clock_in_range signal_platform 1); [lia | reflexivity]. Qed.

Lemma signal_platform_answers : clock_always_answers signal_platform.
Proof. apply (paced_clock_answers signal_platform 1). reflexivity. Qed.

Lemma quiet_platform_nondecreasing : clock_nondecreasing quiet_platform.
Proof.
  apply (paced_clock_nondecreasing quiet_platform 1000000); [lia | reflexivity].
Qed.

Lemma quiet_platform_in_range : clock_in_range quiet_platform.
Proof.
  apply (paced_clock_in_range quiet_platform 1000000); [lia | reflexivity].
Qed.

Lemma quiet_platform_answers : clock_always_answers quiet_platform.
Proof. apply (paced_clock_answers quiet_platform 1000000). reflexivity. Qed.

Lemma timespec_of_us_ns (us : Z) :
  timespec_ns (timespec_of_us us) = 1000 * us.
Proof. unfold timespec_ns, timespec_of_us; simpl. lia_div. Qed.

(** On the quiet platform a sleep that returns 0 has lasted as requested. *)
Lemma quiet_platform_sleep_contract : nanosleep_contract quiet_platform.
Proof.
  intros req n Hret c i j a b Hin Hnj Ha Hb. simpl in Hret, Ha, Hb.
  injection Ha as <-. injection Hb as <-.
  destruct (Z.leb_spec (timespec_ns req) 1000000000) as [Hreq|];
    simpl in Hret; [|discriminate].
  destruct (Z.ltb_spec (Z.of_nat n) (2 ^ 40)) as [Hn|]; [|discriminate].
  rewrite !timespec_of_us_ns. unfold example_time. lia.
Qed.

Lemma failing_clock_nondecreasing : clock_nondecreasing failing_clock_platform.
Proof.
  intros c i j a b Hij Ha Hb. simpl in Ha, Hb.
  destruct c; [|discriminate].
  destruct i; [|discriminate]. destruct j; [|discriminate].
  injection Ha as <-. injection Hb as <-. right. simpl. lia.
Qed.

Lemma failing_clock_in_range : clock_in_range failing_clock_platform.
Proof.
  intros c n ts Hts. simpl in Hts.
  destruct c; [|discriminate]. destruct n; [|discriminate].
  injection Hts as <-. unfold timespec_ok, UINT64_MAX; simpl. lia_div.
Qed.

(** C8, as the code has it.  Of two calls of which the first has returned
    before the second starts, the second returns at least what the first
    returned when both are answered by the same source (both by
    [CLOCK_MONOTONIC_RAW], both by [CLOCK_MONOTONIC], or both by the
    sentinel) or when the first returned the sentinel, provided each clock
    alone never runs backward and its value in microseconds fits in 64
    bits. *)
Theorem timestamp_monotonic_same_source (P : platform) (s1 s2 : hal_state) :
  clock_nondecreasing P ->
  clock_in_range P ->
  (os_step (snd (hal_get_timestamp_us P s1)) <= os_step s2)%nat ->
  clock_source P (os_step s1) = clock_source P (os_step s2) \/
  clock_source P (os_step s1) = None ->
  fst (hal_get_timestamp_us P s1) <= fst (hal_get_timestamp_us P s2).
Proof.
  intros Hmono Hrange Horder Hsrc.
  pose proof (timestamp_by_source P s1) as H1.
  pose proof (timestamp_by_source P s2) as H2.
  pose proof (timestamp_steps P s1) as Hstep.
  pose proof (timestamp_range P s2) as Hr2.
  destruct Hsrc as [Heq|Hnone].
  - rewrite Heq in H1.
    destruct (clock_source P (os_step s2)) as [[|]|].
    + destruct H1 as (a & Ha & ->), H2 as (b & Hb & ->).
      apply timespec_to_us_mono; eauto.
      apply (Hmono CLOCK_MONOTONIC_RAW (os_step s1) (os_step s2)); auto. lia.
    + destruct H1 as (a & i & Hi1 & Hi2 & Ha & ->).
      destruct H2 as (b & j & Hj1 & Hj2 & Hb & ->).
      apply timespec_to_us_mono; eauto.
      apply (Hmono CLOCK_MONOTONIC i j); auto. lia.
    + rewrite H1, H2. lia.
  - rewrite Hnone in H1. rewrite H1. unfold in_u64 in Hr2. lia.
Qed.

Lemma timestamp_monotonic_same_source_witness :
  fst (hal_get_timestamp_us signal_platform hal_boot) <=
  fst (hal_get_timestamp_us signal_platform
         (snd (hal_get_timestamp_us signal_platform hal_boot))).
Proof.
  apply (timestamp_monotonic_same_source signal_platform hal_boot
           (snd (hal_get_timestamp_us signal_platform hal_boot))).
  - exact signal_platform_nondecreasing.
  - exact signal_platform_in_range.
  - simpl. lia.
  - left. reflexivity.
Defined.

(** C8 as it is worded fails across the fallback chain: the first call is
    answered by [CLOCK_MONOTONIC_RAW] with 10 s, the second call starts
    where the first ended, finds no clock and returns the sentinel 0, while
    no clock has run backward. *)
Lemma timestamp_drops_to_sentinel :
  clock_nondecreasing failing_clock_platform /\
  fst (hal_get_timestamp_us failing_clock_platform hal_boot) = 10000000 /\
  fst (hal_get_timestamp_us failing_clock_platform
         (snd (hal_get_timestamp_us failing_clock_platform hal_boot))) = 0.
Proof.
  split; [exact failing_clock_nondecreasing|]. split; reflexivity.
Qed.

(** ** The microsecond delay *)

Section Delay.

Variable P : platform.
Hypothesis Hanswers : clock_always_answers P.

Implicit Types (s : hal_state) (n : nat).

(** When the first clock answers, a timestamp is one reading and costs one
    step. *)
Lemma timestamp_primary s :
  hal_get_timestamp_us P s = (reading P (os_step s), os_call s).
Proof.
  destruct (Hanswers (os_step s)) as [ts Hts].
  unfold hal_get_timestamp_us, timestamp_fallback, reading.
  rewrite Hts. unfold primary_clock in Hts.
  destruct (HAS_CLOCK_MONOTONIC_RAW P); rewrite Hts; reflexivity.
Qed.

Lemma reading_range n : in_u64 (reading P n).
Proof.
  unfold reading. destruct (clock_gettime P (primary_clock P) n).
  - apply u64_range.
  - by_range.
Qed.

(** The loop ends only on a reading that has reached the deadline. *)
Lemma busy_wait_sound (fuel : nat) (end_ : Z) : forall s s',
  busy_wait P fuel end_ s = Some s' ->
  exists n, (os_step s <= n)%nat /\ end_ <= reading P n /\
            s' = set_os_step (S n) s.
Proof.
  induction fuel as [|fuel IH]; intros s s' Hrun; [discriminate|].
  simpl in Hrun. rewrite timestamp_primary in Hrun.
  destruct (Z.ltb_spec (reading P (os_step s)) end_) as [Hlt|Hge].
  - destruct (IH _ _ Hrun) as (n & Hn & Hend & ->).
    exists n. simpl in Hn. repeat split; [lia | exact Hend].
  - injection Hrun as <-. exists (os_step s). repeat split; [lia | exact Hge].
Qed.

(** The loop ends as soon as a reading reaches the deadline. *)
Lemma busy_wait_complete (k : nat) (end_ : Z) : forall s,
  end_ <= reading P (os_step s + k) ->
  exists s', busy_wait P (S k) end_ s = Some s'.
Proof.
  induction k as [|k IH]; intros s Hend.
  - simpl. rewrite timestamp_primary.
    rewrite Nat.add_0_r in Hend.
    destruct (Z.ltb_spec (reading P (os_step s)) end_); [lia|]. eauto.
  - change (busy_wait P (S (S k)) end_ s)
      with (let '(now, s1) := hal_get_timestamp_us P s in
            if now <? end_ then busy_wait P (S k) end_ (hal_spin_hint s1)
            else Some s1).
    rewrite timestamp_primary.
    destruct (reading P (os_step s) <? end_); [|eauto].
    apply IH. simpl.
    replace (S (os_step s + k)) with (os_step s + S k)%nat by lia.
    exact Hend.
Qed.

Hypothesis Hmono : clock_nondecreasing P.
Hypothesis Hrange : clock_in_range P.

Lemma reading_mono (i j : nat) :
  (i <= j)%nat -> reading P i <= reading P j.
Proof.
  intros Hij. unfold reading.
  destruct (Hanswers i) as [a Ha], (Hanswers j) as [b Hb].
  rewrite Ha, Hb. apply timespec_to_us_mono; eauto.
Qed.

(** The busy-poll branch: whatever the fuel, a delay that returns has let at
    least [delay_us] microseconds pass between the two samples. *)
Lemma delay_busy_poll_elapsed (fuel : nat) (delay_us : Z) s (elapsed : Z) :
  0 < delay_us <= 10000 ->
  reading P (S (os_step s)) + delay_us <= UINT64_MAX ->
  measure_delay P fuel delay_us s = Some elapsed ->
  delay_us <= elapsed.
Proof.
  intros Hd Hfit Hm. unfold measure_delay, hal_delay_us in Hm.
  rewrite !timestamp_primary in Hm. simpl os_step in Hm.
  destruct (Z.ltb_spec 10000 delay_us) as [Hbig|_]; [lia|].
  destruct (busy_wait P fuel _ _) as [s2|] eqn:Hrun; [|discriminate].
  apply busy_wait_sound in Hrun. destruct Hrun as (n & Hn & Hend & ->).
  rewrite timestamp_primary in Hm. injection Hm as <-. simpl in *.
  pose proof (reading_range (os_step s)) as R0.
  pose proof (reading_range (S (os_step s))) as R1.
  pose proof (reading_range (S n)) as R2.
  pose proof (reading_mono (os_step s) (S (os_step s)) ltac:(lia)).
  pose proof (reading_mono n (S n) ltac:(lia)).
  rewrite u64_small in Hend by by_range.
  rewrite u64_small by by_range. lia.
Qed.

(** X8.  The busy-poll branch keeps the delay: for a delay of 1 to 10000
    microseconds on a platform whose first clock always answers, never runs
    backward and stays in range, as soon as some reading reaches the
    deadline the call returns, and the timestamps taken before and after it
    are at least [delay_us] apart. *)
Lemma delay_busy_poll_returns (delay_us : Z) s (m : nat) :
  0 < delay_us <= 10000 ->
  reading P (S (os_step s)) + delay_us <= reading P m ->
  exists fuel elapsed,
    measure_delay P fuel delay_us s = Some elapsed /\ delay_us <= elapsed.
Proof.
  intros Hd Hm.
  pose proof (reading_range m) as Rm.
  assert (Hfit : reading P (S (os_step s)) + delay_us <= UINT64_MAX)
    by by_range.
  pose proof (reading_range (S (os_step s))) as R1.
  set (k := (m - (S (S (os_step s))))%nat).
  assert (Hk : u64 (reading P (S (os_step s)) + delay_us)
               <= reading P (S (S (os_step s)) + k)).
  { rewrite u64_small by by_range.
    etransitivity; [exact Hm|]. apply reading_mono. lia. }
  destruct (busy_wait_complete k _ (os_call (os_call s)) Hk) as [s2 Hrun].
  assert (Hsome : exists e, measure_delay P (S k) delay_us s = Some e).
  { unfold measure_delay, hal_delay_us.
    rewrite !timestamp_primary. simpl os_step.
    destruct (Z.ltb_spec 10000 delay_us) as [Hbig|_]; [lia|].
    rewrite Hrun. rewrite timestamp_primary. eauto. }
  destruct Hsome as [e He]. exists (S k), e. split; [exact He|].
  exact (delay_busy_poll_elapsed (S k) delay_us s e Hd Hfit He).
Qed.

(** The sleep branch under [nanosleep_contract], which asks the slept time
    of every clock: if [nanosleep] returns 0 the timestamps taken before and
    after the call are at least [delay_us] apart. *)
Lemma delay_sleep_elapsed (fuel : nat) (delay_us : Z) s :
  nanosleep_contract P ->
  10000 < delay_us <= UINT32_MAX ->
  nanosleep P (sleep_request delay_us) (S (S (os_step s))) = 0 ->
  exists elapsed,
    measure_delay P fuel delay_us s = Some elapsed /\ delay_us <= elapsed.
Proof.
  intros Hsleep Hd Hret. unfold measure_delay, hal_delay_us.
  rewrite !timestamp_primary. simpl os_step.
  destruct (Z.ltb_spec 10000 delay_us) as [_|Hsmall]; [|lia].
  unfold nanosleep_call. rewrite timestamp_primary. simpl os_step.
  eexists. split; [reflexivity|].
  pose proof (reading_range (os_step s)) as R0.
  pose proof (reading_range (S (S (S (os_step s))))) as R3.
  assert (Hgap : reading P (os_step s) + delay_us
                 <= reading P (S (S (S (os_step s))))).
  { unfold reading.
    destruct (Hanswers (os_step s)) as [a Ha].
    destruct (Hanswers (S (S (S (os_step s))))) as [b Hb].
    rewrite Ha, Hb.
    pose proof (Hsleep _ _ Hret (primary_clock P) (os_step s)
                  (S (S (S (os_step s)))) a b ltac:(lia) ltac:(lia) Ha Hb)
      as Hns.
    rewrite !timespec_to_us_ns by eauto.
    assert (Hreq : timespec_ns (sleep_request delay_us) = delay_us * 1000).
    { unfold timespec_ns, sleep_request; simpl.
      rewrite u32_small by (unfold in_u32, UINT32_MAX in *; lia_div).
      unfold UINT32_MAX in Hd. lia_div. }
    rewrite Hreq in Hns. lia_div. }
  rewrite u64_small by by_range. lia.
Qed.

End Delay.

(** The delay alone: the busy-poll branch returns once the clock reaches the
    deadline. *)
Lemma delay_us_busy_poll_returns (P : platform) (delay_us : Z)
  (s : hal_state) (m : nat) :
  clock_always_answers P -> clock_nondecreasing P -> clock_in_range P ->
  0 < delay_us <= 10000 ->
  reading P (os_step s) + delay_us <= reading P m ->
  exists fuel s', hal_delay_us P fuel delay_us s = Some s'.
Proof.
  intros Hanswers Hmono Hrange Hd Hm.
  pose proof (reading_range P m) as Rm.
  pose proof (reading_range P (os_step s)) as R0.
  set (k := (m - S (os_step s))%nat).
  assert (Hk : u64 (reading P (os_step s) + delay_us)
               <= reading P (S (os_step s) + k)).
  { rewrite u64_small by by_range.
    etransitivity; [exact Hm|]. apply reading_mono; auto. lia. }
  destruct (busy_wait_complete P Hanswers k _ (os_call s) Hk) as [s2 Hrun].
  exists (S k), s2. unfold hal_delay_us.
  rewrite (timestamp_primary P Hanswers).
  destruct (Z.ltb_spec 10000 delay_us) as [Hbig|_]; [lia|]. exact Hrun.
Qed.

Lemma signal_platform_sleep_contract : nanosleep_contract signal_platform.
Proof. intros req n Hret. simpl in Hret. discriminate. Qed.

(** C2 at a delay the code does not keep.  The platform keeps every contract
    of the operating system (its clocks answer and never run backward), a
    signal ends the [nanosleep] of the sleep branch as it starts
    ([nanosleep] returns -1), and [hal_delay_us(20000)] returns with 3
    microseconds between the sample taken before the call and the sample
    taken after it. *)
Theorem delay_us_cut_short_by_signal :
  clock_always_answers signal_platform /\
  clock_nondecreasing signal_platform /\
  nanosleep_contract signal_platform /\
  nanosleep signal_platform (sleep_request 20000) 2 = -1 /\
  forall fuel : nat,
    measure_delay signal_platform fuel 20000 hal_boot = Some 3.
Proof.
  split; [exact signal_platform_answers|].
  split; [exact signal_platform_nondecreasing|].
  split; [exact signal_platform_sleep_contract|].
  split; [reflexivity|]. intros fuel. reflexivity.
Qed.

(** The two branches at work: a busy-polled delay of 3 microseconds on the
    platform of the signals, and a sleep of 20 ms that runs to completion on
    the quiet platform. *)
Example delay_busy_poll_on_signal_platform :
  exists fuel elapsed,
    measure_delay signal_platform fuel 3 hal_boot = Some elapsed /\
    3 <= elapsed.
Proof.
  apply (delay_busy_poll_returns signal_platform signal_platform_answers
           signal_platform_nondecreasing signal_platform_in_range
           3 hal_boot 4%nat); [lia|].
  vm_compute. discriminate.
Defined.

Example delay_sleep_on_quiet_platform :
  exists elapsed,
    measure_delay quiet_platform 0 20000 hal_boot = Some elapsed /\
    20000 <= elapsed.
Proof.
  apply (delay_sleep_elapsed quiet_platform quiet_platform_answers
           quiet_platform_in_range 0 20000 hal_boot
           quiet_platform_sleep_contract); [by_range | reflexivity].
Defined.

(** ** Timer and DMA lifecycle *)

(** C4.  [hal_timer_init] and [hal_dma_init] return [HAL_INVALID_PARAM]
    exactly when the configuration pointer is null, and [HAL_OK] for every
    configuration that is not null, whatever the channel id; neither touches
    the process state. *)
Theorem init_rejects_exactly_null :
  (forall (timer_id : Z) (config : option hal_timer_config_t) (s : hal_state),
     (fst (hal_timer_init timer_id config s) = HAL_INVALID_PARAM <->
      config = None) /\
     hal_timer_init timer_id config s =
       (match config with
        | None => HAL_INVALID_PARAM
        | Some _ => HAL_OK
        end, s)) /\
  (forall (dma_id : Z) (config : option hal_dma_config_t) (s : hal_state),
     (fst (hal_dma_init dma_id config s) = HAL_INVALID_PARAM <->
      config = None) /\
     hal_dma_init dma_id config s =
       (match config with
        | None => HAL_INVALID_PARAM
        | Some _ => HAL_OK
        end, s)).
Proof.
  split; intros id [cfg|] s; simpl; (split; [split|reflexivity]);
    try reflexivity; discriminate.
Qed.

(** C9.  With a null output pointer [hal_timer_get_counter] returns
    [HAL_INVALID_PARAM] and leaves the process state as it was; with an
    output pointer that is not null it writes 0 to the object pointed to,
    changes nothing else, and returns [HAL_OK], for every timer id. *)
Theorem timer_get_counter_contract (timer_id : Z) (s : hal_state) :
  hal_timer_get_counter timer_id None s = (HAL_INVALID_PARAM, s) /\
  forall counter : Z,
    fst (hal_timer_get_counter timer_id (Some counter) s) = HAL_OK /\
    heap (snd (hal_timer_get_counter timer_id (Some counter) s)) !! counter
      = Some 0 /\
    snd (hal_timer_get_counter timer_id (Some counter) s)
      = set_heap (<[counter := 0]> (heap s)) s.
Proof.
  split; [reflexivity|]. intros counter. simpl.
  split; [reflexivity|]. split; [|reflexivity].
  apply lookup_insert_eq.
Qed.

(** The status of [hal_dma_wait], when it returns, is [HAL_OK]. *)
Lemma dma_wait_status (P : platform) (fuel : nat) (dma_id timeout_us : Z)
  (s : hal_state) (r : hal_status_t * hal_state) :
  hal_dma_wait P fuel dma_id timeout_us s = Some r -> fst r = HAL_OK.
Proof.
  unfold hal_dma_wait. destruct (0 <? timeout_us).
  - destruct (hal_delay_us P fuel timeout_us s); [|discriminate].
    intros [= <-]. reflexivity.
  - intros [= <-]. reflexivity.
Qed.

(** [hal_dma_wait] is [hal_delay_us] for a positive timeout and nothing
    otherwise. *)
Lemma dma_wait_unfold (P : platform) (fuel : nat) (dma_id timeout_us : Z)
  (s : hal_state) :
  hal_dma_wait P fuel dma_id timeout_us s =
  if 0 <? timeout_us
  then option_map (fun s' => (HAL_OK, s')) (hal_delay_us P fuel timeout_us s)
  else Some (HAL_OK, s).
Proof.
  unfold hal_dma_wait. destruct (0 <? timeout_us); [|reflexivity].
  destruct (hal_delay_us P fuel timeout_us s); reflexivity.
Qed.

(** [hal_dma_wait] returns: at once for a timeout of 0, after the sleep for a
    timeout above 10 ms, and once the clock reaches the deadline for the
    busy-polled timeouts in between. *)
Lemma dma_wait_returns (P : platform) (dma_id timeout_us : Z)
  (s : hal_state) :
  (timeout_us <= 0 \/ 10000 < timeout_us ->
   forall fuel, exists s',
     hal_dma_wait P fuel dma_id timeout_us s = Some (HAL_OK, s')) /\
  (0 < timeout_us <= 10000 ->
   clock_always_answers P -> clock_nondecreasing P -> clock_in_range P ->
   forall m : nat,
     reading P (os_step s) + timeout_us <= reading P m ->
     exists fuel s',
       hal_dma_wait P fuel dma_id timeout_us s = Some (HAL_OK, s')).
Proof.
  split.
  - intros Ht fuel. rewrite dma_wait_unfold.
    destruct (Z.ltb_spec 0 timeout_us) as [Hpos|Hz]; [|eauto].
    unfold hal_delay_us.
    destruct (hal_get_timestamp_us P s) as [start s1].
    destruct (Z.ltb_spec 10000 timeout_us) as [_|Hsmall]; [|lia].
    simpl. eauto.
  - intros Ht Ha Hm Hr m Hreach.
    destruct (delay_us_busy_poll_returns P timeout_us s m Ha Hm Hr Ht Hreach)
      as (fuel & s' & Hrun).
    exists fuel, s'. rewrite dma_wait_unfold, Hrun.
    destruct (Z.ltb_spec 0 timeout_us); [reflexivity | lia].
Qed.

(** What holds of [hal_dma_wait] on every platform: whenever it returns,
    the status is [HAL_OK].  With a positive timeout it does what
    [hal_delay_us(timeout_us)] does and then returns [HAL_OK]; with a timeout
    of 0 it returns [HAL_OK] at once and leaves the state as it was.  It
    returns for every timeout that is slept, and for every busy-polled
    timeout once the clock reaches the deadline. *)
Theorem dma_wait_never_times_out (P : platform) (dma_id timeout_us : Z)
  (s : hal_state) :
  (forall (fuel : nat) (r : hal_status_t * hal_state),
     hal_dma_wait P fuel dma_id timeout_us s = Some r ->
     fst r = HAL_OK /\ fst r <> HAL_TIMEOUT) /\
  (forall fuel : nat,
     hal_dma_wait P fuel dma_id timeout_us s =
     if 0 <? timeout_us
     then option_map (fun s' => (HAL_OK, s')) (hal_delay_us P fuel timeout_us s)
     else Some (HAL_OK, s)) /\
  (forall fuel : nat, hal_dma_wait P fuel dma_id 0 s = Some (HAL_OK, s)) /\
  (10000 < timeout_us ->
   forall fuel : nat, exists s',
     hal_dma_wait P fuel dma_id timeout_us s = Some (HAL_OK, s')) /\
  (0 < timeout_us <= 10000 ->
   clock_always_answers P -> clock_nondecreasing P -> clock_in_range P ->
   forall m : nat,
     reading P (os_step s) + timeout_us <= reading P m ->
     exists fuel s',
       hal_dma_wait P fuel dma_id timeout_us s = Some (HAL_OK, s')).
Proof.
  split.
  { intros fuel r Hr. apply dma_wait_status in Hr. rewrite Hr.
    split; [reflexivity | discriminate]. }
  split; [intros fuel; apply dma_wait_unfold|].
  split; [reflexivity|].
  destruct (dma_wait_returns P dma_id timeout_us s) as [Hsleep Hpoll].
  split; [|exact Hpoll].
  intros Hbig. apply Hsleep. right. exact Hbig.
Qed.

Lemma dma_wait_never_times_out_witness :
  (exists s', hal_dma_wait signal_platform 0 7 20000 hal_boot
              = Some (HAL_OK, s')) /\
  (exists fuel s', hal_dma_wait signal_platform fuel 7 3 hal_boot
                   = Some (HAL_OK, s')).
Proof.
  split.
  - destruct (dma_wait_never_times_out signal_platform 7 20000 hal_boot)
      as (_ & _ & _ & Hsleep & _).
    apply Hsleep. lia.
  - destruct (dma_wait_never_times_out signal_platform 7 3 hal_boot)
      as (_ & _ & _ & _ & Hpoll).
    apply (Hpoll ltac:(lia) signal_platform_answers
             signal_platform_nondecreasing signal_platform_in_range 3%nat).
    vm_compute. discriminate.
Defined.

(** C5, as the code has it.  [hal_timer_start], [hal_timer_stop] and
    [hal_dma_start] return [HAL_OK] for every input and leave the state as
    it was; [hal_timer_get_counter] returns [HAL_OK] for every timer id when
    its output pointer is not null; [hal_dma_wait] returns [HAL_OK]
    whenever it returns, which it does for every timeout that is 0 or slept
    and for every busy-polled timeout once the clock reaches the deadline.
    No call looks at a channel state. *)
Theorem lifecycle_calls_succeed (P : platform) :
  (forall (timer_id : Z) (s : hal_state),
     hal_timer_start timer_id s = (HAL_OK, s) /\
     hal_timer_stop timer_id s = (HAL_OK, s)) /\
  (forall (dma_id : Z) (s : hal_state), hal_dma_start dma_id s = (HAL_OK, s)) /\
  (forall (timer_id counter : Z) (s : hal_state),
     fst (hal_timer_get_counter timer_id (Some counter) s) = HAL_OK) /\
  (forall (fuel : nat) (dma_id timeout_us : Z) (s : hal_state)
          (r : hal_status_t * hal_state),
     hal_dma_wait P fuel dma_id timeout_us s = Some r -> fst r = HAL_OK) /\
  (forall (dma_id timeout_us : Z) (s : hal_state),
     timeout_us <= 0 \/ 10000 < timeout_us ->
     forall fuel : nat, exists s',
       hal_dma_wait P fuel dma_id timeout_us s = Some (HAL_OK, s')) /\
  (forall (dma_id timeout_us : Z) (s : hal_state),
     0 < timeout_us <= 10000 ->
     clock_always_answers P -> clock_nondecreasing P -> clock_in_range P ->
     forall m : nat,
       reading P (os_step s) + timeout_us <= reading P m ->
       exists fuel s',
         hal_dma_wait P fuel dma_id timeout_us s = Some (HAL_OK, s')).
Proof.
  split; [intros; split; reflexivity|].
  split; [reflexivity|].
  split; [reflexivity|].
  split; [intros fuel dma_id timeout_us s r; apply dma_wait_status|].
  split; intros dma_id timeout_us s; apply dma_wait_returns.
Qed.

Lemma lifecycle_calls_succeed_witness :
  (exists s', hal_dma_wait signal_platform 0 1 0 hal_boot
              = Some (HAL_OK, s')) /\
  (exists fuel s', hal_dma_wait signal_platform fuel 1 5 hal_boot
                   = Some (HAL_OK, s')).
Proof.
  destruct (lifecycle_calls_succeed signal_platform)
    as (_ & _ & _ & _ & Hsleep & Hpoll).
  split.
  - apply Hsleep. left. lia.
  - apply (Hpoll 1 5 hal_boot ltac:(lia) signal_platform_answers
             signal_platform_nondecreasing signal_platform_in_range 5%nat).
    vm_compute. discriminate.
Defined.

(** C5 as it is worded fails for [hal_timer_get_counter]: with a null output
    pointer it returns [HAL_INVALID_PARAM], not [HAL_OK]. *)
Lemma timer_get_counter_null_not_ok :
  fst (hal_timer_get_counter 0 None hal_boot) = HAL_INVALID_PARAM /\
  fst (hal_timer_get_counter 0 None hal_boot) <> HAL_OK.
Proof. split; [reflexivity | discriminate]. Qed.

(** ** Aligned memory *)

Section Alignment.

Variable m : data_model.

Lemma word_bits_pos : 0 < word_bits m.
Proof. destruct m; simpl; lia. Qed.

Lemma sizeof_ptr_pos : 0 < sizeof_ptr m.
Proof. destruct m; vm_compute; reflexivity. Qed.

Lemma uword_small (x : Z) : 0 <= x <= SIZE_MAX m -> uword m x = x.
Proof. unfold SIZE_MAX, uword. intros H. apply Z.mod_small. lia. Qed.

Lemma uword_bounds (x : Z) : 0 <= uword m x <= SIZE_MAX m.
Proof.
  unfold SIZE_MAX, uword. pose proof word_bits_pos.
  pose proof (Z.mod_pos_bound x (2 ^ word_bits m) ltac:(lia)). lia.
Qed.

Lemma pow2_below_word (k : Z) :
  0 <= k < word_bits m -> 0 < 2 ^ k <= SIZE_MAX m.
Proof.
  intros Hk. unfold SIZE_MAX.
  pose proof (Z.pow_lt_mono_r 2 k (word_bits m)
                ltac:(lia) ltac:(lia) ltac:(lia)).
  pose proof (Z.pow_pos_nonneg 2 k ltac:(lia) ltac:(lia)). lia.
Qed.

(** Masking with [~(2^k - 1)] clears the low [k] bits. *)
Lemma mask_low_bits (k x : Z) :
  0 <= k < word_bits m -> 0 <= x <= SIZE_MAX m ->
  Z.land x (uword m (Z.lnot (uword m (2 ^ k - 1)))) = 2 ^ k * (x / 2 ^ k).
Proof.
  intros Hk Hx. pose proof (pow2_below_word k Hk) as Hp.
  rewrite (uword_small (2 ^ k - 1)) by lia.
  replace (2 ^ k - 1) with (Z.ones k) by (rewrite Z.ones_equiv; lia).
  unfold uword. rewrite <- (Z.land_ones (Z.lnot (Z.ones k))) by lia.
  rewrite Z.land_assoc, <- Z.ldiff_land, Z.ldiff_ones_r by lia.
  rewrite Z.land_ones by lia.
  rewrite Z.shiftr_div_pow2, Z.shiftl_mul_pow2 by lia.
  pose proof (Z.mul_div_le x (2 ^ k) ltac:(lia)).
  pose proof (Z.div_pos x (2 ^ k) ltac:(lia) ltac:(lia)).
  unfold SIZE_MAX in Hx. rewrite Z.mod_small by nia. lia.
Qed.

End Alignment.

Section Allocator.

Variable P : platform.
Implicit Types (s : hal_state) (size alignment k : Z).

(** The result of the alignment arithmetic is a multiple of the alignment,
    whatever the address. *)
Lemma align_up_multiple (addr k : Z) :
  0 <= k < word_bits (pointer_model P) ->
  align_up P addr (2 ^ k) mod 2 ^ k = 0.
Proof.
  intros Hk. unfold align_up.
  rewrite mask_low_bits by (auto using uword_bounds).
  pose proof (pow2_below_word _ k Hk).
  rewrite Z.mul_comm. apply Z.mod_mul. lia.
Qed.

(** Without wrap-around it is the first multiple at or after the address. *)
Lemma align_up_bounds (addr k : Z) :
  0 <= k < word_bits (pointer_model P) ->
  0 <= addr -> addr + 2 ^ k - 1 <= SIZE_MAX (pointer_model P) ->
  addr <= align_up P addr (2 ^ k) <= addr + 2 ^ k - 1.
Proof.
  intros Hk Ha Hfit. unfold align_up.
  pose proof (pow2_below_word _ k Hk) as Hp.
  rewrite (uword_small _ (addr + 2 ^ k - 1)) by lia.
  rewrite mask_low_bits by (auto; lia).
  pose proof (Z.mul_div_le (addr + 2 ^ k - 1) (2 ^ k) ltac:(lia)).
  pose proof (Z.mul_succ_div_gt (addr + 2 ^ k - 1) (2 ^ k) ltac:(lia)).
  lia.
Qed.

(** Every pointer returned is null or a multiple of the alignment. *)
Lemma malloc_aligned_alignment (size k : Z) s :
  0 <= k < word_bits (pointer_model P) ->
  posix_memalign_contract P ->
  fst (hal_malloc_aligned P size (2 ^ k) s) mod 2 ^ k = 0.
Proof.
  intros Hk Hposix. unfold hal_malloc_aligned.
  destruct (HAS_POSIX_MEMALIGN P).
  - specialize (Hposix (2 ^ k) size (os_step s)).
    destruct (posix_memalign P (2 ^ k) size (os_step s)) as [rc ptr].
    simpl in Hposix.
    destruct (Z.eqb_spec rc 0) as [Hrc|Hrc]; simpl; [auto|].
    apply Z.mod_0_l. pose proof (pow2_below_word _ k Hk). lia.
  - destruct (malloc P _ _ =? 0); simpl.
    + apply Z.mod_0_l. pose proof (pow2_below_word _ k Hk). lia.
    + apply align_up_multiple, Hk.
Qed.

(** The fallback when the size asked of [malloc] does not wrap: the block
    and the slot before it lie in the raw allocation, the slot holds the raw
    pointer, and [hal_free_aligned] gives the raw pointer to [free]. *)
Lemma malloc_aligned_fallback (size k : Z) s :
  0 < size -> 0 <= k < word_bits (pointer_model P) ->
  size + 2 ^ k + sizeof_ptr (pointer_model P) <= SIZE_MAX (pointer_model P) ->
  malloc_contract P ->
  HAS_POSIX_MEMALIGN P = false ->
  fst (hal_malloc_aligned P size (2 ^ k) s) <> 0 ->
  let A := fst (hal_malloc_aligned P size (2 ^ k) s) in
  let s' := snd (hal_malloc_aligned P size (2 ^ k) s) in
  let total := size + 2 ^ k + sizeof_ptr (pointer_model P) in
  let raw := malloc P total (os_step s) in
  raw <> 0 /\
  raw <= A - sizeof_ptr (pointer_model P) /\
  A + size <= raw + total /\
  heap s' !! (A - sizeof_ptr (pointer_model P)) = Some raw /\
  hal_free_aligned P A s' = Some (set_released (raw :: released s') s').
Proof.
  intros Hsize Hk Hfit Hmalloc Hfallback.
  pose proof (pow2_below_word _ k Hk) as Hp.
  pose proof (sizeof_ptr_pos (pointer_model P)) as Hptr.
  unfold hal_malloc_aligned, hal_free_aligned, raw_size.
  rewrite Hfallback.
  rewrite (uword_small _ (size + 2 ^ k + sizeof_ptr (pointer_model P))) by lia.
  set (total := size + 2 ^ k + sizeof_ptr (pointer_model P)) in *.
  set (raw := malloc P total (os_step s)).
  destruct (Z.eqb_spec raw 0) as [Hnull|Hraw]; simpl; [congruence|].
  intros HA.
  destruct (Hmalloc total (os_step s) Hraw) as [Hpos Hin].
  fold raw in Hpos, Hin.
  assert (Hword : 2 ^ word_bits (pointer_model P)
                  = SIZE_MAX (pointer_model P) + 1) by (unfold SIZE_MAX; lia).
  rewrite (uword_small _ (raw + sizeof_ptr (pointer_model P))) by lia.
  pose proof (align_up_bounds (raw + sizeof_ptr (pointer_model P)) k Hk
                ltac:(lia) ltac:(lia)) as Hal.
  set (A := align_up P (raw + sizeof_ptr (pointer_model P)) (2 ^ k)) in *.
  rewrite (uword_small _ (A - sizeof_ptr (pointer_model P))) by lia.
  split; [exact Hraw|]. split; [lia|]. split; [lia|].
  split; [apply lookup_insert_eq|].
  destruct (Z.eqb_spec A 0) as [HA0|_]; [lia|].
  rewrite lookup_insert_eq. reflexivity.
Qed.

End Allocator.

Lemma signal_platform_posix_contract : posix_memalign_contract signal_platform.
Proof. intros alignment size n Hrc. simpl in Hrc. discriminate. Qed.

Lemma signal_platform_malloc_contract : malloc_contract signal_platform.
Proof.
  intros size n Hraw. simpl in *.
  destruct (Z.leb_spec size (2 ^ 20)) as [Hle|Hgt]; [|congruence].
  split; lia.
Qed.

Lemma quiet_platform_posix_contract : posix_memalign_contract quiet_platform.
Proof.
  intros alignment size n Hrc. simpl in *.
  destruct (Z.ltb_spec 0 alignment) as [Hpos|Hneg]; simpl in *; [|discriminate].
  destruct (alignment mod 8 =? 0); simpl in *; [|discriminate].
  apply Z.mod_mul. lia.
Qed.

(** X18.  The allocator where the arithmetic does not wrap.  For every size
    above 0 and every alignment that is a power of two, [hal_malloc_aligned]
    returns null or a multiple of the alignment.  In the over-allocation
    fallback, when [size + alignment + sizeof(void* )] does not wrap around
    [size_t], the block of [size] bytes at the returned address and the
    pointer-sized slot before it lie inside the raw allocation of that many
    bytes, the slot holds the raw pointer, and [hal_free_aligned] hands that
    raw pointer to [free]. *)
Theorem malloc_aligned_contract (P : platform) (size k : Z) (s : hal_state) :
  0 < size <= SIZE_MAX (pointer_model P) ->
  0 <= k < word_bits (pointer_model P) ->
  posix_memalign_contract P ->
  malloc_contract P ->
  let alignment := 2 ^ k in
  let A := fst (hal_malloc_aligned P size alignment s) in
  let s' := snd (hal_malloc_aligned P size alignment s) in
  let total := size + alignment + sizeof_ptr (pointer_model P) in
  let raw := malloc P total (os_step s) in
  (A = 0 \/ A mod alignment = 0) /\
  (HAS_POSIX_MEMALIGN P = false ->
   A <> 0 ->
   total <= SIZE_MAX (pointer_model P) ->
   raw <> 0 /\
   raw <= A - sizeof_ptr (pointer_model P) /\
   A + size <= raw + total /\
   heap s' !! (A - sizeof_ptr (pointer_model P)) = Some raw /\
   hal_free_aligned P A s' = Some (set_released (raw :: released s') s')).
Proof.
  intros Hsize Hk Hposix Hmalloc alignment A s' total raw. split.
  - right. apply malloc_aligned_alignment; assumption.
  - intros Hfallback HA Hfit.
    apply malloc_aligned_fallback; try assumption. lia.
Qed.

Lemma malloc_aligned_contract_witness :
  fst (hal_malloc_aligned signal_platform 1024 (2 ^ 6) hal_boot) mod 2 ^ 6
  = 0 /\
  heap (snd (hal_malloc_aligned signal_platform 1024 (2 ^ 6) hal_boot))
    !! (fst (hal_malloc_aligned signal_platform 1024 (2 ^ 6) hal_boot) - 8)
  = Some 4096.
Proof.
  destruct (malloc_aligned_contract signal_platform 1024 6 hal_boot)
    as [Haligned Hfallback].
  - vm_compute. split; [reflexivity | discriminate].
  - vm_compute. split; [discriminate | reflexivity].
  - exact signal_platform_posix_contract.
  - exact signal_platform_malloc_contract.
  - split.
    + destruct Haligned as [Hnull|Hmod]; [|exact Hmod].
      vm_compute in Hnull. discriminate.
    + apply Hfallback; [reflexivity | vm_compute; discriminate
                       | vm_compute; discriminate].
Defined.

(** C3 at a size the code does not handle.  For [size = 2^64 - 8] and an
    alignment of 8 on a 64-bit platform, [size + alignment + sizeof(void* )]
    wraps around [size_t]: the fallback asks [malloc] for 8 bytes, gets them
    at 4096, and returns 4104 instead of null.  The block of [size] bytes at
    4104 does not lie inside those 8 bytes, and neither does its first
    byte. *)
Theorem malloc_aligned_size_wraps :
  malloc_contract signal_platform /\
  0 < 2 ^ 64 - 8 <= SIZE_MAX (pointer_model signal_platform) /\
  raw_size signal_platform (2 ^ 64 - 8) (2 ^ 3) = 8 /\
  malloc signal_platform 8 0 = 4096 /\
  fst (hal_malloc_aligned signal_platform (2 ^ 64 - 8) (2 ^ 3) hal_boot)
    = 4104 /\
  ~ (4104 + (2 ^ 64 - 8) <= 4096 + 8) /\
  ~ (4104 < 4096 + 8).
Proof.
  split; [exact signal_platform_malloc_contract|].
  split; [vm_compute; split; [reflexivity | discriminate]|].
  split; [reflexivity|]. split; [reflexivity|]. split; [reflexivity|].
  split; lia.
Qed.

(** * Further properties of the code *)

(** ** Runs of the interrupt calls *)

Lemma irq_step_only_counter (s : hal_state) (c : irq_call) :
  irq_step s c = set_interrupt_nesting (g_interrupt_nesting (irq_step s c)) s.
Proof.
  destruct s as [i t n h r o].
  destruct c; simpl; unfold hal_exit_critical, hal_restore_interrupts; simpl;
    try reflexivity; destruct (0 <? n); reflexivity.
Qed.

(** X1.  No run of disable, restore, enter and exit calls touches anything
    but the nesting counter: the start time, the heap, the pointers given to
    [free] and the count of system calls are those of the state the run
    started from. *)
Theorem irq_run_only_counter (l : list irq_call) (s : hal_state) :
  irq_run l s = set_interrupt_nesting (g_interrupt_nesting (irq_run l s)) s.
Proof.
  revert s. induction l as [|c l IH]; intros s.
  - destruct s; reflexivity.
  - simpl. rewrite IH at 1. rewrite (irq_step_only_counter s c) at 2.
    reflexivity.
Qed.

(** X2.  Disables are never lost, restores may be.  From a counter [c] with
    room for the disables of the run, the counter after any run lies between
    [c + disables - restores] and [c + disables], and is not negative: a
    restore met at 0 is dropped, and nothing else changes the count. *)
Theorem irq_run_counter_bounds (l : list irq_call) (s : hal_state) :
  in_u32 (g_interrupt_nesting s) ->
  g_interrupt_nesting s + Z.of_nat (count_opens l) <= UINT32_MAX ->
  Z.max 0 (g_interrupt_nesting s + Z.of_nat (count_opens l)
           - Z.of_nat (count_closes l))
    <= g_interrupt_nesting (irq_run l s)
    <= g_interrupt_nesting s + Z.of_nat (count_opens l).
Proof.
  revert s. induction l as [|c l IH]; intros s Hs Hmax; simpl in *.
  - unfold in_u32 in Hs. lia.
  - pose proof (irq_step_counter s c) as Hstep.
    pose proof (irq_step_in_u32 s c Hs) as Hs'.
    unfold in_u32 in Hs. destruct (opens c).
    + rewrite u32_small in Hstep by (unfold in_u32; lia).
      specialize (IH (irq_step s c) Hs' ltac:(lia)). lia.
    + destruct (Z.ltb_spec 0 (g_interrupt_nesting s)) as [Hpos|Hz].
      * rewrite u32_small in Hstep by (unfold in_u32; lia).
        specialize (IH (irq_step s c) Hs' ltac:(lia)). lia.
      * specialize (IH (irq_step s c) Hs' ltac:(lia)). lia.
Qed.

Lemma irq_run_counter_bounds_witness :
  Z.max 0 (0 + Z.of_nat 2 - Z.of_nat 3)
    <= g_interrupt_nesting
         (irq_run [Restore 0; Disable; ExitCritical; EnterCritical; Restore 4]
            hal_boot)
    <= 0 + Z.of_nat 2.
Proof.
  apply (irq_run_counter_bounds
           [Restore 0; Disable; ExitCritical; EnterCritical; Restore 4]
           hal_boot); by_range.
Defined.

(** X3.  Restores stop at zero: a run of [n] restores or critical-section
    exits, whatever their tokens, takes a counter [c] to [max 0 (c - n)]. *)
Theorem restores_saturate_at_zero (l : list irq_call) (s : hal_state) :
  in_u32 (g_interrupt_nesting s) ->
  forallb (fun c => negb (opens c)) l = true ->
  g_interrupt_nesting (irq_run l s)
  = Z.max 0 (g_interrupt_nesting s - Z.of_nat (length l)).
Proof.
  revert s. induction l as [|c l IH]; intros s Hs Hall.
  - simpl. unfold in_u32 in Hs. lia.
  - simpl in Hall. apply andb_prop in Hall. destruct Hall as [Hc Hall].
    change (irq_run (c :: l) s) with (irq_run l (irq_step s c)).
    rewrite (IH _ (irq_step_in_u32 s c Hs) Hall).
    rewrite irq_step_counter.
    destruct (opens c); [discriminate|]. unfold in_u32 in Hs.
    destruct (Z.ltb_spec 0 (g_interrupt_nesting s)) as [Hpos|Hz].
    + rewrite u32_small by (unfold in_u32; lia).
      change (length (c :: l)) with (S (length l)). lia.
    + change (length (c :: l)) with (S (length l)). lia.
Qed.

Lemma restores_saturate_at_zero_witness :
  g_interrupt_nesting
    (irq_run [Restore 9; ExitCritical; Restore 0]
       (set_interrupt_nesting 2 hal_boot))
  = Z.max 0 (2 - Z.of_nat 3).
Proof.
  apply (restores_saturate_at_zero [Restore 9; ExitCritical; Restore 0]
           (set_interrupt_nesting 2 hal_boot)); [by_range | reflexivity].
Defined.

(** X4.  The token is the nesting depth: after [n] disables or
    critical-section entries from a counter [c], with [c + n] inside the
    range, the next [hal_disable_interrupts] returns [c + n]. *)
Theorem disable_token_is_depth (l : list irq_call) (s : hal_state) :
  in_u32 (g_interrupt_nesting s) ->
  forallb opens l = true ->
  g_interrupt_nesting s + Z.of_nat (length l) <= UINT32_MAX ->
  fst (hal_disable_interrupts (irq_run l s))
  = g_interrupt_nesting s + Z.of_nat (length l).
Proof.
  unfold hal_disable_interrupts; simpl.
  revert s. induction l as [|c l IH]; intros s Hs Hall Hmax.
  - simpl. lia.
  - simpl in Hall. apply andb_prop in Hall. destruct Hall as [Hc Hall].
    change (length (c :: l)) with (S (length l)) in *.
    change (irq_run (c :: l) s) with (irq_run l (irq_step s c)).
    pose proof (irq_step_counter s c) as Hstep. rewrite Hc in Hstep.
    unfold in_u32 in Hs.
    rewrite u32_small in Hstep by (unfold in_u32; lia).
    rewrite IH; [lia | apply irq_step_in_u32; exact Hs | exact Hall | lia].
Qed.

Lemma disable_token_is_depth_witness :
  fst (hal_disable_interrupts
         (irq_run [Disable; EnterCritical; Disable] hal_boot))
  = 0 + Z.of_nat 3.
Proof.
  apply (disable_token_is_depth [Disable; EnterCritical; Disable] hal_boot);
    [by_range | reflexivity | by_range].
Defined.

(** ** Start time, timestamps and delays *)

Section TimingFrame.

Variable P : platform.
Implicit Types (s : hal_state).

(** A timestamp changes the step count and nothing else. *)
Lemma timestamp_frame s :
  snd (hal_get_timestamp_us P s)
  = set_os_step (os_step (snd (hal_get_timestamp_us P s))) s.
Proof.
  destruct s as [i t n h r o].
  unfold hal_get_timestamp_us, timestamp_fallback.
  destruct (HAS_CLOCK_MONOTONIC_RAW P);
    repeat match goal with
           | |- context [match ?x with _ => _ end] => destruct x
           end; reflexivity.
Qed.

Lemma busy_wait_frame (fuel : nat) (end_ : Z) : forall s s',
  busy_wait P fuel end_ s = Some s' ->
  s' = set_os_step (os_step s') s /\ (os_step s < os_step s')%nat.
Proof.
  induction fuel as [|fuel IH]; intros s s' Hrun; [discriminate|].
  simpl in Hrun.
  pose proof (timestamp_frame s) as Hf. pose proof (timestamp_steps P s) as Hs.
  destruct (hal_get_timestamp_us P s) as [now s1]. simpl in Hf, Hs.
  destruct (now <? end_).
  - destruct (IH _ _ Hrun) as [Heq Hlt]. unfold hal_spin_hint in *.
    split; [|lia]. rewrite Heq, Hf. reflexivity.
  - injection Hrun as <-. split; [exact Hf | exact Hs].
Qed.

End TimingFrame.

(** X5.  [hal_initialize] records the start time once.  After the call the
    HAL is initialised; a call on an initialised HAL changes nothing, reads
    no clock, and so a second call is a no-op; the first call stores the
    timestamp it reads; and no call touches the nesting counter or the
    heap. *)
Theorem hal_initialize_once (P : platform) (s : hal_state) :
  g_hal_initialized (hal_initialize P s) = true /\
  hal_initialize P (hal_initialize P s) = hal_initialize P s /\
  (g_hal_initialized s = true -> hal_initialize P s = s) /\
  (g_hal_initialized s = false ->
   g_hal_start_time_us (hal_initialize P s)
   = fst (hal_get_timestamp_us P s)) /\
  g_interrupt_nesting (hal_initialize P s) = g_interrupt_nesting s /\
  heap (hal_initialize P s) = heap s.
Proof.
  assert (Hdone : forall s0, g_hal_initialized s0 = true ->
                             hal_initialize P s0 = s0).
  { intros s0 H0. unfold hal_initialize. rewrite H0. reflexivity. }
  assert (Hinit : g_hal_initialized (hal_initialize P s) = true).
  { unfold hal_initialize.
    destruct (g_hal_initialized s) eqn:Hi; [exact Hi|].
    destruct (hal_get_timestamp_us P s); reflexivity. }
  split; [exact Hinit|]. split; [apply Hdone, Hinit|].
  split; [apply Hdone|].
  pose proof (timestamp_frame P s) as Hf.
  unfold hal_initialize.
  destruct (g_hal_initialized s); [repeat split; discriminate|].
  destruct (hal_get_timestamp_us P s) as [t s1]. simpl in *.
  rewrite Hf. repeat split; reflexivity.
Qed.

(** X6.  The conversion of a clock reading drops the nanoseconds below one
    microsecond and nothing more: for a normalised reading whose value fits,
    the timestamp [t] satisfies [1000 * t <= ns < 1000 * (t + 1)]. *)
Theorem timestamp_truncates_to_microseconds (ts : timespec) :
  timespec_ok ts ->
  1000 * timespec_to_us ts <= timespec_ns ts < 1000 * (timespec_to_us ts + 1).
Proof.
  intros Hok. rewrite (timespec_to_us_ns ts Hok).
  destruct Hok as (Hsec & Hns & _). unfold timespec_ns. lia_div.
Qed.

Lemma timestamp_truncates_to_microseconds_witness :
  1000 * timespec_to_us {| tv_sec := 3; tv_nsec := 123456789 |}
    <= timespec_ns {| tv_sec := 3; tv_nsec := 123456789 |}
    < 1000 * (timespec_to_us {| tv_sec := 3; tv_nsec := 123456789 |} + 1).
Proof.
  apply (timestamp_truncates_to_microseconds
           {| tv_sec := 3; tv_nsec := 123456789 |}).
  unfold timespec_ok, UINT64_MAX; simpl. lia_div.
Defined.

(** X7.  A delay only lets time pass: when [hal_delay_us] returns, the state
    differs from the one it was called in by the step count alone, which has
    grown; the nesting counter, the heap and the start time are as they
    were.  This holds for every platform and both branches. *)
Theorem delay_us_only_passes_time (P : platform) (fuel : nat) (delay_us : Z)
  (s s' : hal_state) :
  hal_delay_us P fuel delay_us s = Some s' ->
  s' = set_os_step (os_step s') s /\ (os_step s < os_step s')%nat.
Proof.
  unfold hal_delay_us.
  pose proof (timestamp_frame P s) as Hf.
  pose proof (timestamp_steps P s) as Hs.
  destruct (hal_get_timestamp_us P s) as [start s1]. simpl in Hf, Hs.
  destruct (10000 <? delay_us).
  - intros [= <-]. unfold nanosleep_call, os_call. simpl.
    split; [|lia]. rewrite Hf. reflexivity.
  - intros Hrun. apply busy_wait_frame in Hrun. destruct Hrun as [Heq Hlt].
    split; [|lia]. rewrite Heq, Hf. reflexivity.
Qed.

Lemma delay_us_only_passes_time_witness :
  set_os_step 2 hal_boot
  = set_os_step (os_step (set_os_step 2 hal_boot)) hal_boot /\
  (os_step hal_boot < os_step (set_os_step 2 hal_boot))%nat.
Proof.
  apply (delay_us_only_passes_time signal_platform 0 20000 hal_boot
           (set_os_step 2 hal_boot)).
  reflexivity.
Defined.

Section BusyPoll.

Variable P : platform.
Hypothesis Hanswers : clock_always_answers P.
Implicit Types (s : hal_state) (n : nat).

(** The loop ends on the first reading that has reached the deadline. *)
Lemma busy_wait_first (fuel : nat) (end_ : Z) : forall s s',
  busy_wait P fuel end_ s = Some s' ->
  exists n, (os_step s <= n)%nat /\ end_ <= reading P n /\
            s' = set_os_step (S n) s /\
            forall k, (os_step s <= k < n)%nat -> reading P k < end_.
Proof.
  induction fuel as [|fuel IH]; intros s s' Hrun; [discriminate|].
  simpl in Hrun. rewrite (timestamp_primary P Hanswers) in Hrun.
  destruct (Z.ltb_spec (reading P (os_step s)) end_) as [Hlt|Hge].
  - destruct (IH _ _ Hrun) as (n & Hn & Hend & -> & Hfirst).
    exists n. simpl in Hn, Hfirst. repeat split; [lia | exact Hend |].
    intros k Hk. destruct (Nat.eq_dec k (os_step s)) as [->|Hne];
      [exact Hlt | apply Hfirst; lia].
  - injection Hrun as <-. exists (os_step s).
    repeat split; [lia | exact Hge | intros k Hk; lia].
Qed.

End BusyPoll.

(** X10.  A busy-polled delay returns on the first poll that reaches the
    deadline.  For a delay of 1 to 10000 microseconds on a platform whose
    first clock always answers, if some later reading reaches
    [start + delay_us], the call returns right after the first such
    reading: every poll before it read less than the deadline. *)
Theorem delay_us_returns_at_first_deadline_poll (P : platform)
  (delay_us : Z) (s : hal_state) (m : nat) :
  clock_always_answers P ->
  0 < delay_us <= 10000 ->
  (os_step s < m)%nat ->
  reading P (os_step s) + delay_us <= reading P m ->
  exists (fuel n : nat),
    hal_delay_us P fuel delay_us s = Some (set_os_step (S n) s) /\
    (os_step s < n <= m)%nat /\
    reading P (os_step s) + delay_us <= reading P n /\
    forall k, (os_step s < k < n)%nat ->
              reading P k < reading P (os_step s) + delay_us.
Proof.
  intros Hanswers Hd Hlater Hm.
  pose proof (reading_range P m) as Rm.
  pose proof (reading_range P (os_step s)) as R0.
  assert (Hend : u64 (reading P (os_step s) + delay_us)
                 = reading P (os_step s) + delay_us)
    by (apply u64_small; by_range).
  set (k := (m - S (os_step s))%nat).
  assert (Hk : u64 (reading P (os_step s) + delay_us)
               <= reading P (os_step (os_call s) + k)).
  { rewrite Hend. simpl. replace (S (os_step s + k)) with m by lia.
    exact Hm. }
  destruct (busy_wait_complete P Hanswers k _ (os_call s) Hk) as [s2 Hrun].
  destruct (busy_wait_first P Hanswers _ _ _ _ Hrun)
    as (n & Hn & Hreach & -> & Hfirst).
  simpl in Hn, Hfirst. rewrite Hend in Hreach, Hfirst.
  exists (S k), n. repeat split.
  - unfold hal_delay_us. rewrite (timestamp_primary P Hanswers).
    destruct (Z.ltb_spec 10000 delay_us) as [Hbig|_]; [lia|]. exact Hrun.
  - lia.
  - destruct (le_lt_dec n m) as [Hle|Hgt]; [exact Hle|].
    specialize (Hfirst m ltac:(lia)). lia.
  - exact Hreach.
  - intros j Hj. apply Hfirst. lia.
Qed.

Lemma delay_us_returns_at_first_deadline_poll_witness :
  exists (fuel n : nat),
    hal_delay_us signal_platform fuel 3 hal_boot
      = Some (set_os_step (S n) hal_boot) /\
    (os_step hal_boot < n <= 7)%nat /\
    reading signal_platform (os_step hal_boot) + 3
      <= reading signal_platform n /\
    forall k, (os_step hal_boot < k < n)%nat ->
              reading signal_platform k
              < reading signal_platform (os_step hal_boot) + 3.
Proof.
  apply (delay_us_returns_at_first_deadline_poll signal_platform 3 hal_boot
           7%nat signal_platform_answers); [lia | simpl; lia |].
  vm_compute. discriminate.
Defined.

(** X11.  A delay of 0 does not spin.  On a platform whose first clock
    always answers, never runs backward and stays in range,
    [hal_delay_us(0)] reads the clock twice (once for the start, once for
    the loop condition) and returns. *)
Theorem delay_us_zero_reads_clock_twice (P : platform) (fuel : nat)
  (s : hal_state) :
  clock_always_answers P -> clock_nondecreasing P -> clock_in_range P ->
  hal_delay_us P (S fuel) 0 s = Some (set_os_step (S (S (os_step s))) s).
Proof.
  intros Hanswers Hmono Hrange. unfold hal_delay_us.
  rewrite (timestamp_primary P Hanswers). simpl.
  rewrite (timestamp_primary P Hanswers). simpl.
  pose proof (reading_range P (os_step s)) as R0.
  pose proof (reading_mono P Hanswers Hmono Hrange (os_step s)
                (S (os_step s)) ltac:(lia)) as Hle.
  rewrite Z.add_0_r, u64_small by exact R0.
  destruct (Z.ltb_spec (reading P (S (os_step s))) (reading P (os_step s)));
    [lia|].
  destruct s; reflexivity.
Qed.

Lemma delay_us_zero_reads_clock_twice_witness :
  hal_delay_us signal_platform 1 0 hal_boot = Some (set_os_step 2 hal_boot).
Proof.
  apply (delay_us_zero_reads_clock_twice signal_platform 0 hal_boot
           signal_platform_answers signal_platform_nondecreasing
           signal_platform_in_range).
Defined.

(** ** The cycle counter and the nanosecond delay *)

Section CycleCount.

Variables (C : processor) (P : platform).
Implicit Types (s : hal_state) (n : nat).

(** The count depends on the state through the step alone, and costs one
    step. *)
Lemma cycle_count_at s :
  hal_get_cycle_count C P s = (cycle_reading C P (os_step s), os_call s).
Proof.
  unfold cycle_reading, hal_get_cycle_count. simpl.
  destruct (ARCH_X86 (architecture C)); [reflexivity|].
  destruct (ARCH_ARM (architecture C) && is_aarch64 (architecture C));
    reflexivity.
Qed.

Lemma cycle_reading_range n : in_u64 (cycle_reading C P n).
Proof.
  unfold cycle_reading, hal_get_cycle_count, timespec_to_cycles.
  destruct (ARCH_X86 (architecture C)); [apply u64_range|].
  destruct (ARCH_ARM (architecture C) && is_aarch64 (architecture C));
    apply u64_range.
Qed.

Lemma cycle_wait_first (fuel : nat) (target : Z) : forall s s',
  cycle_wait C P fuel target s = Some s' ->
  exists n, (os_step s <= n)%nat /\ target <= cycle_reading C P n /\
            s' = set_os_step (S n) s /\
            forall k, (os_step s <= k < n)%nat -> cycle_reading C P k < target.
Proof.
  induction fuel as [|fuel IH]; intros s s' Hrun; [discriminate|].
  simpl in Hrun. rewrite cycle_count_at in Hrun.
  destruct (Z.ltb_spec (cycle_reading C P (os_step s)) target) as [Hlt|Hge].
  - destruct (IH _ _ Hrun) as (n & Hn & Hend & -> & Hfirst).
    exists n. simpl in Hn, Hfirst. repeat split; [lia | exact Hend |].
    intros k Hk. destruct (Nat.eq_dec k (os_step s)) as [->|Hne];
      [exact Hlt | apply Hfirst; lia].
  - injection Hrun as <-. exists (os_step s).
    repeat split; [lia | exact Hge | intros k Hk; lia].
Qed.

Lemma cycle_wait_complete (k : nat) (target : Z) : forall s,
  target <= cycle_reading C P (os_step s + k) ->
  exists s', cycle_wait C P (S k) target s = Some s'.
Proof.
  induction k as [|k IH]; intros s Hend.
  - simpl. rewrite cycle_count_at. rewrite Nat.add_0_r in Hend.
    destruct (Z.ltb_spec (cycle_reading C P (os_step s)) target); [lia|].
    eauto.
  - change (cycle_wait C P (S (S k)) target s)
      with (let '(now, s1) := hal_get_cycle_count C P s in
            if now <? target
            then cycle_wait C P (S k) target (hal_spin_hint s1)
            else Some s1).
    rewrite cycle_count_at.
    destruct (cycle_reading C P (os_step s) <? target); [|eauto].
    apply IH. simpl.
    replace (S (os_step s + k)) with (os_step s + S k)%nat by lia.
    exact Hend.
Qed.

(** The target of [hal_delay_ns] when nothing wraps. *)
Lemma delay_ns_target (delay_ns : Z) n :
  in_u32 delay_ns ->
  cycle_reading C P n + 2 * delay_ns <= UINT64_MAX ->
  u64 (cycle_reading C P n + u64 (delay_ns * 2))
  = cycle_reading C P n + 2 * delay_ns.
Proof.
  intros Hd Hfit. pose proof (cycle_reading_range n) as Hr.
  rewrite (u64_small (delay_ns * 2)) by by_range.
  rewrite u64_small by by_range. lia.
Qed.

(** Where [hal_delay_ns] stops. *)
Lemma delay_ns_exit (fuel : nat) (delay_ns : Z) s s' :
  in_u32 delay_ns ->
  cycle_reading C P (os_step s) + 2 * delay_ns <= UINT64_MAX ->
  hal_delay_ns C P fuel delay_ns s = Some s' ->
  exists n, (os_step s < n)%nat /\ s' = set_os_step (S n) s /\
    cycle_reading C P (os_step s) + 2 * delay_ns <= cycle_reading C P n /\
    forall k, (os_step s < k < n)%nat ->
      cycle_reading C P k < cycle_reading C P (os_step s) + 2 * delay_ns.
Proof.
  intros Hd Hfit Hrun. unfold hal_delay_ns in Hrun.
  rewrite cycle_count_at in Hrun.
  rewrite (delay_ns_target delay_ns (os_step s) Hd Hfit) in Hrun.
  destruct (cycle_wait_first _ _ _ _ Hrun) as (n & Hn & Hreach & -> & Hfirst).
  simpl in Hn, Hfirst. exists n. repeat split; [lia | exact Hreach |].
  intros k Hk. apply Hfirst. lia.
Qed.

End CycleCount.

(** X12.  [hal_delay_ns] waits for [2 * delay_ns] counts of the cycle
    counter.  When the target [start + 2 * delay_ns] does not wrap around
    64 bits, a call that returns has stopped right after the first count
    that reached the target (every count polled before was below it), and
    the call does return if some later count reaches the target.  The state
    changes by the step count alone. *)
Theorem delay_ns_waits_two_counts_per_ns (C : processor) (P : platform)
  (delay_ns : Z) (s : hal_state) :
  in_u32 delay_ns ->
  cycle_reading C P (os_step s) + 2 * delay_ns <= UINT64_MAX ->
  (forall (fuel : nat) (s' : hal_state),
     hal_delay_ns C P fuel delay_ns s = Some s' ->
     exists n : nat,
       (os_step s < n)%nat /\ s' = set_os_step (S n) s /\
       cycle_reading C P (os_step s) + 2 * delay_ns <= cycle_reading C P n /\
       forall k : nat, (os_step s < k < n)%nat ->
         cycle_reading C P k < cycle_reading C P (os_step s) + 2 * delay_ns) /\
  (forall m : nat,
     (os_step s < m)%nat ->
     cycle_reading C P (os_step s) + 2 * delay_ns <= cycle_reading C P m ->
     exists (fuel : nat) (s' : hal_state),
       hal_delay_ns C P fuel delay_ns s = Some s').
Proof.
  intros Hd Hfit. split.
  - intros fuel s' Hrun.
    exact (delay_ns_exit C P fuel delay_ns s s' Hd Hfit Hrun).
  - intros m Hm Hreach. unfold hal_delay_ns. rewrite cycle_count_at.
    rewrite (delay_ns_target C P delay_ns (os_step s) Hd Hfit).
    set (k := (m - S (os_step s))%nat).
    destruct (cycle_wait_complete C P k
                (cycle_reading C P (os_step s) + 2 * delay_ns) (os_call s))
      as [s' Hrun].
    + simpl. replace (S (os_step s + k)) with m by lia. exact Hreach.
    + exists (S k), s'. exact Hrun.
Qed.

Lemma delay_ns_waits_two_counts_per_ns_witness :
  exists (fuel : nat) (s' : hal_state),
    hal_delay_ns x86_processor signal_platform fuel 4 hal_boot = Some s'.
Proof.
  destruct (delay_ns_waits_two_counts_per_ns x86_processor signal_platform
              4 hal_boot) as [_ Hreturns].
  - by_range.
  - vm_compute. discriminate.
  - apply (Hreturns 3%nat); [simpl; lia | vm_compute; discriminate].
Defined.

(** X13.  On a target without a counter register (neither x86 nor 64-bit
    ARM, so also on 32-bit ARM) the cycle count is [CLOCK_MONOTONIC] in
    nanoseconds: when the clock answers with a normalised reading whose
    nanoseconds fit in 64 bits, [hal_get_cycle_count] returns exactly that
    many, at the cost of one step. *)
Theorem cycle_count_fallback_is_clock_ns (C : processor) (P : platform)
  (s : hal_state) (ts : timespec) :
  ARCH_X86 (architecture C) = false ->
  is_aarch64 (architecture C) = false ->
  clock_gettime P CLOCK_MONOTONIC (os_step s) = Some ts ->
  timespec_cycles_ok ts ->
  hal_get_cycle_count C P s = (timespec_ns ts, os_call s).
Proof.
  intros Hx86 Ha64 Hclock (Hsec & Hns & Hmax).
  unfold hal_get_cycle_count. rewrite Hx86, Ha64, Hclock, andb_false_r.
  unfold timespec_to_cycles, timespec_ns in *.
  rewrite (u64_small (tv_sec ts)) by by_range.
  rewrite (u64_small (tv_sec ts * 1000000000)) by by_range.
  rewrite (u64_small (tv_nsec ts)) by by_range.
  rewrite u64_small by by_range. reflexivity.
Qed.

Lemma cycle_count_fallback_is_clock_ns_witness :
  hal_get_cycle_count generic_processor signal_platform
    (set_os_step 5 hal_boot)
  = (timespec_ns (timespec_of_us 5), os_call (set_os_step 5 hal_boot)).
Proof.
  apply (cycle_count_fallback_is_clock_ns generic_processor signal_platform
           (set_os_step 5 hal_boot) (timespec_of_us 5));
    try reflexivity.
  unfold timespec_cycles_ok. vm_compute.
  repeat split; first [reflexivity | discriminate].
Defined.

Lemma cycle_reading_fallback (C : processor) (P : platform) (n : nat)
  (ts : timespec) :
  ARCH_X86 (architecture C) = false ->
  is_aarch64 (architecture C) = false ->
  clock_gettime P CLOCK_MONOTONIC n = Some ts ->
  timespec_cycles_ok ts ->
  cycle_reading C P n = timespec_ns ts.
Proof.
  intros Hx86 Ha64 Hclock (Hsec & Hns & Hmax).
  unfold cycle_reading, hal_get_cycle_count. simpl.
  rewrite Hx86, Ha64, Hclock, andb_false_r. simpl.
  unfold timespec_to_cycles, timespec_ns in *.
  rewrite (u64_small (tv_sec ts)) by by_range.
  rewrite (u64_small (tv_sec ts * 1000000000)) by by_range.
  rewrite (u64_small (tv_nsec ts)) by by_range.
  apply u64_small. by_range.
Qed.

Lemma timespec_of_us_cycles_ok (us : Z) :
  0 <= us <= 2 ^ 50 -> timespec_cycles_ok (timespec_of_us us).
Proof.
  intros Hus. unfold timespec_cycles_ok. rewrite timespec_of_us_ns.
  unfold timespec_of_us, UINT64_MAX; simpl. repeat split; lia_div.
Qed.

Lemma signal_platform_cycles_ok (n : nat) (ts : timespec) :
  clock_gettime signal_platform CLOCK_MONOTONIC n = Some ts ->
  timespec_cycles_ok ts.
Proof.
  simpl. intros [= <-]. apply timespec_of_us_cycles_ok.
  unfold example_time. lia.
Qed.

(** X14.  Without a counter register the nanosecond delay lasts twice as
    long as asked.  On a target that is neither x86 nor 64-bit ARM, where
    [CLOCK_MONOTONIC] answers with readings that fit, a [hal_delay_ns] that
    returns has polled a reading at least [2 * delay_ns] nanoseconds after
    the one it started from: the count is in nanoseconds there, and the code
    still multiplies by its two cycles per nanosecond. *)
Theorem delay_ns_fallback_waits_twice (C : processor) (P : platform)
  (fuel : nat) (delay_ns : Z) (s s' : hal_state) (a : timespec) :
  ARCH_X86 (architecture C) = false ->
  is_aarch64 (architecture C) = false ->
  (forall n : nat, exists ts : timespec,
     clock_gettime P CLOCK_MONOTONIC n = Some ts /\ timespec_cycles_ok ts) ->
  in_u32 delay_ns ->
  clock_gettime P CLOCK_MONOTONIC (os_step s) = Some a ->
  timespec_ns a + 2 * delay_ns <= UINT64_MAX ->
  hal_delay_ns C P fuel delay_ns s = Some s' ->
  exists (n : nat) (b : timespec),
    (os_step s < n)%nat /\ s' = set_os_step (S n) s /\
    clock_gettime P CLOCK_MONOTONIC n = Some b /\
    timespec_ns a + 2 * delay_ns <= timespec_ns b.
Proof.
  intros Hx86 Ha64 Hclock Hd Ha Hfit Hrun.
  assert (Hstart : cycle_reading C P (os_step s) = timespec_ns a).
  { destruct (Hclock (os_step s)) as (ts & Hts & Hok).
    rewrite Ha in Hts. injection Hts as <-.
    apply cycle_reading_fallback; assumption. }
  destruct (delay_ns_exit C P fuel delay_ns s s' Hd ltac:(lia) Hrun)
    as (n & Hn & Hs' & Hreach & _).
  destruct (Hclock n) as (b & Hb & Hok).
  exists n, b. repeat split; try assumption.
  rewrite (cycle_reading_fallback C P n b Hx86 Ha64 Hb Hok) in Hreach. lia.
Qed.

Lemma delay_ns_fallback_waits_twice_witness :
  exists (n : nat) (b : timespec),
    (os_step hal_boot < n)%nat /\
    set_os_step 3 hal_boot = set_os_step (S n) hal_boot /\
    clock_gettime signal_platform CLOCK_MONOTONIC n = Some b /\
    timespec_ns (timespec_of_us 0) + 2 * 1000 <= timespec_ns b.
Proof.
  apply (delay_ns_fallback_waits_twice generic_processor signal_platform
           5 1000 hal_boot (set_os_step 3 hal_boot) (timespec_of_us 0));
    try reflexivity.
  - intros n. eexists. split; [reflexivity|].
    apply (signal_platform_cycles_ok n). reflexivity.
  - by_range.
  - vm_compute. discriminate.
Defined.

(** ** Cache maintenance *)

(** X15.  Both cache functions bracket their cache operation with the two
    barriers, in opposite orders, on every target and build:
    [hal_cache_flush] issues the compiler barrier first and the hardware
    barrier last, [hal_cache_invalidate] the hardware barrier first and the
    compiler barrier last, with at most one cache operation and no barrier
    in between.  On a Linux build the flush is an [msync] of the range even
    on ARM, while the invalidate clears the cache on ARM only and is two
    bare barriers elsewhere. *)
Theorem cache_operations_are_bracketed (C : processor) (P : platform)
  (addr size : Z) :
  (exists mid,
     hal_cache_flush C P addr size = CompilerBarrier :: mid ++ hal_dmb C /\
     forallb (fun op => negb (is_barrier op)) mid = true /\
     (length mid <= 1)%nat /\
     (HAS_CLOCK_MONOTONIC_RAW P = true -> mid = [Msync addr size])) /\
  (exists mid,
     hal_cache_invalidate C P addr size
       = hal_dmb C ++ mid ++ [CompilerBarrier] /\
     forallb (fun op => negb (is_barrier op)) mid = true /\
     (length mid <= 1)%nat /\
     (ARCH_ARM (architecture C) = false -> mid = [])) /\
  forallb is_hardware_barrier (hal_dmb C) = true /\
  length (hal_dmb C) = 1%nat /\
  List.filter is_barrier (hal_cache_invalidate C P addr size)
  = rev (List.filter is_barrier (hal_cache_flush C P addr size)).
Proof.
  unfold hal_cache_flush, hal_cache_invalidate, hal_dmb, hal_memory_barrier.
  set (clear := ClearCache addr (uword (pointer_model P) (addr + size))).
  assert (Hmid : forall (T : list hw_op -> Prop),
            (T [Msync addr size] \/ T [clear] \/ T []) -> exists mid, T mid).
  { intros T [H|[H|H]]; eauto. }
  destruct (HAS_CLOCK_MONOTONIC_RAW P), (ARCH_ARM (architecture C)); simpl;
    (split; [apply Hmid; simpl;
             first [ left; repeat split; solve [auto | discriminate]
                   | right; left; repeat split; solve [auto | discriminate]
                   | right; right; repeat split; solve [auto | discriminate] ]
            |]);
    (split; [apply Hmid; simpl;
             first [ right; left; repeat split; solve [auto | discriminate]
                   | right; right; repeat split; solve [auto | discriminate] ]
            |]);
    repeat split; reflexivity.
Qed.

(** ** More on the aligned allocator *)

(** X16.  The alignment arithmetic of the fallback rounds up to the next
    multiple: for a power-of-two alignment and an address that does not come
    within one alignment of the end of the address space, the result is the
    least multiple of the alignment at or after the address; an address that
    is already a multiple is returned as it is. *)
Theorem align_up_least_multiple (P : platform) (addr k : Z) :
  0 <= k < word_bits (pointer_model P) ->
  0 <= addr ->
  addr + 2 ^ k - 1 <= SIZE_MAX (pointer_model P) ->
  align_up P addr (2 ^ k) mod 2 ^ k = 0 /\
  addr <= align_up P addr (2 ^ k) < addr + 2 ^ k /\
  (forall m : Z,
     m mod 2 ^ k = 0 -> addr <= m -> align_up P addr (2 ^ k) <= m) /\
  (addr mod 2 ^ k = 0 -> align_up P addr (2 ^ k) = addr).
Proof.
  intros Hk Ha Hfit.
  pose proof (pow2_below_word _ k Hk) as Hp.
  pose proof (align_up_multiple P addr k Hk) as Hmul.
  pose proof (align_up_bounds P addr k Hk Ha Hfit) as Hb.
  set (A := align_up P addr (2 ^ k)) in *.
  assert (Hleast : forall m, m mod 2 ^ k = 0 -> addr <= m -> A <= m).
  { intros m Hm Hle.
    apply Z.mod_divide in Hm; [|lia]. destruct Hm as [qm ->].
    apply Z.mod_divide in Hmul; [|lia]. destruct Hmul as [qa HA].
    destruct (Z.le_gt_cases qa qm) as [Hq|Hq]; [rewrite HA; nia|].
    assert ((qm + 1) * 2 ^ k <= qa * 2 ^ k) by nia. lia. }
  split; [exact Hmul|]. split; [lia|]. split; [exact Hleast|].
  intros Haligned. specialize (Hleast addr Haligned ltac:(lia)). lia.
Qed.

Lemma align_up_least_multiple_witness :
  align_up signal_platform 4104 (2 ^ 6) mod 2 ^ 6 = 0 /\
  4104 <= align_up signal_platform 4104 (2 ^ 6) < 4104 + 2 ^ 6 /\
  (forall m : Z, m mod 2 ^ 6 = 0 -> 4104 <= m ->
     align_up signal_platform 4104 (2 ^ 6) <= m) /\
  (4104 mod 2 ^ 6 = 0 -> align_up signal_platform 4104 (2 ^ 6) = 4104).
Proof.
  apply (align_up_least_multiple signal_platform 4104 6);
    vm_compute; try split; first [reflexivity | discriminate].
Defined.


(** The state the fallback leaves when the size does not wrap: one more
    step, and the raw pointer in the slot before the block. *)
Lemma malloc_aligned_fallback_state (P : platform) (size k : Z)
  (s : hal_state) :
  0 < size -> 0 <= k < word_bits (pointer_model P) ->
  size + 2 ^ k + sizeof_ptr (pointer_model P) <= SIZE_MAX (pointer_model P) ->
  malloc_contract P ->
  HAS_POSIX_MEMALIGN P = false ->
  fst (hal_malloc_aligned P size (2 ^ k) s) <> 0 ->
  snd (hal_malloc_aligned P size (2 ^ k) s)
  = set_heap
      (<[fst (hal_malloc_aligned P size (2 ^ k) s)
         - sizeof_ptr (pointer_model P)
         := malloc P (size + 2 ^ k + sizeof_ptr (pointer_model P)) (os_step s)]>
         (heap s))
      (os_call s).
Proof.
  intros Hsize Hk Hfit Hmalloc Hfallback.
  pose proof (pow2_below_word _ k Hk) as Hp.
  pose proof (sizeof_ptr_pos (pointer_model P)) as Hptr.
  unfold hal_malloc_aligned, raw_size. rewrite Hfallback.
  rewrite (uword_small _ (size + 2 ^ k + sizeof_ptr (pointer_model P))) by lia.
  set (total := size + 2 ^ k + sizeof_ptr (pointer_model P)) in *.
  set (raw := malloc P total (os_step s)).
  destruct (Z.eqb_spec raw 0) as [Hnull|Hraw]; simpl; [congruence|].
  intros _.
  destruct (Hmalloc total (os_step s) Hraw) as [Hpos Hin].
  fold raw in Hpos, Hin.
  assert (Hword : 2 ^ word_bits (pointer_model P)
                  = SIZE_MAX (pointer_model P) + 1) by (unfold SIZE_MAX; lia).
  rewrite (uword_small _ (raw + sizeof_ptr (pointer_model P))) by lia.
  pose proof (align_up_bounds P (raw + sizeof_ptr (pointer_model P)) k Hk
                ltac:(lia) ltac:(lia)) as Hal.
  rewrite (uword_small _ (align_up P _ _ - sizeof_ptr (pointer_model P)))
    by lia.
  reflexivity.
Qed.

Lemma bump_platform_malloc_contract : malloc_contract bump_platform.
Proof.
  intros size n Hraw. simpl in *.
  destruct (Z.leb_spec size (2 ^ 20)) as [Hle|Hgt]; simpl in *; [|congruence].
  destruct (Z.ltb_spec (Z.of_nat n) (2 ^ 30)) as [Hn|Hn]; [|congruence].
  split; lia.
Qed.

(** X19.  Two blocks that are live together keep their own raw pointers.
    In the fallback, when [malloc] keeps its contract and gives the second
    call a raw block disjoint from the first, the second allocation does not
    overwrite the slot of the first: after both, each slot still holds its
    raw pointer, and freeing the two blocks hands exactly the two raw
    pointers to [free]. *)
Theorem live_blocks_keep_their_raw_pointers (P : platform)
  (size1 k1 size2 k2 : Z) (s : hal_state) :
  HAS_POSIX_MEMALIGN P = false ->
  malloc_contract P ->
  0 < size1 -> 0 <= k1 < word_bits (pointer_model P) ->
  0 < size2 -> 0 <= k2 < word_bits (pointer_model P) ->
  let W := pointer_model P in
  let total1 := size1 + 2 ^ k1 + sizeof_ptr W in
  let total2 := size2 + 2 ^ k2 + sizeof_ptr W in
  let A1 := fst (hal_malloc_aligned P size1 (2 ^ k1) s) in
  let s1 := snd (hal_malloc_aligned P size1 (2 ^ k1) s) in
  let A2 := fst (hal_malloc_aligned P size2 (2 ^ k2) s1) in
  let s2 := snd (hal_malloc_aligned P size2 (2 ^ k2) s1) in
  let raw1 := malloc P total1 (os_step s) in
  let raw2 := malloc P total2 (os_step s1) in
  total1 <= SIZE_MAX W -> total2 <= SIZE_MAX W ->
  A1 <> 0 -> A2 <> 0 ->
  raw1 + total1 <= raw2 \/ raw2 + total2 <= raw1 ->
  heap s2 !! (A1 - sizeof_ptr W) = Some raw1 /\
  heap s2 !! (A2 - sizeof_ptr W) = Some raw2 /\
  exists s3 s4,
    hal_free_aligned P A1 s2 = Some s3 /\
    hal_free_aligned P A2 s3 = Some s4 /\
    released s4 = raw2 :: raw1 :: released s.
Proof.
  intros Hfallback Hmalloc Hsz1 Hk1 Hsz2 Hk2 W total1 total2 A1 s1 A2 s2
    raw1 raw2 Hfit1 Hfit2 HA1 HA2 Hdisjoint.
  pose proof (sizeof_ptr_pos W) as Hptr.
  destruct (malloc_aligned_fallback P size1 k1 s Hsz1 Hk1 Hfit1 Hmalloc
              Hfallback HA1) as (Hr1 & Hlo1 & Hhi1 & Hslot1 & _).
  destruct (malloc_aligned_fallback P size2 k2 s1 Hsz2 Hk2 Hfit2 Hmalloc
              Hfallback HA2) as (Hr2 & Hlo2 & Hhi2 & Hslot2 & _).
  pose proof (malloc_aligned_fallback_state P size1 k1 s Hsz1 Hk1 Hfit1
                Hmalloc Hfallback HA1) as Hst1.
  pose proof (malloc_aligned_fallback_state P size2 k2 s1 Hsz2 Hk2 Hfit2
                Hmalloc Hfallback HA2) as Hst2.
  fold W A1 s1 total1 raw1 in Hr1, Hlo1, Hhi1, Hslot1, Hst1.
  fold W A1 s1 A2 s2 total2 raw2 in Hr2, Hlo2, Hhi2, Hslot2, Hst2.
  assert (Hne : A2 - sizeof_ptr W <> A1 - sizeof_ptr W) by lia.
  assert (Hs1 : heap s2 !! (A1 - sizeof_ptr W) = Some raw1).
  { rewrite Hst2. simpl. rewrite lookup_insert_ne by exact Hne. exact Hslot1. }
  assert (Hrel : released s2 = released s).
  { rewrite Hst2, Hst1. reflexivity. }
  split; [exact Hs1|]. split; [exact Hslot2|].
  unfold hal_free_aligned. rewrite Hfallback.
  assert (HuA1 : uword W (A1 - sizeof_ptr W) = A1 - sizeof_ptr W).
  { destruct (Hmalloc total1 (os_step s) Hr1) as [Hp1 Hin1].
    fold raw1 W in Hp1, Hin1. apply uword_small. unfold SIZE_MAX. lia. }
  assert (HuA2 : uword W (A2 - sizeof_ptr W) = A2 - sizeof_ptr W).
  { destruct (Hmalloc total2 (os_step s1) Hr2) as [Hp2 Hin2].
    fold raw2 W in Hp2, Hin2. apply uword_small. unfold SIZE_MAX. lia. }
  destruct (Z.eqb_spec A1 0) as [|_]; [contradiction|].
  destruct (Z.eqb_spec A2 0) as [|_]; [contradiction|].
  fold W. rewrite HuA1, Hs1. eexists. eexists.
  split; [reflexivity|]. simpl. rewrite HuA2, Hslot2.
  split; [reflexivity|]. simpl. rewrite Hrel. reflexivity.
Qed.

Lemma live_blocks_keep_their_raw_pointers_witness :
  heap (snd (hal_malloc_aligned bump_platform 100 (2 ^ 4)
               (snd (hal_malloc_aligned bump_platform 1024 (2 ^ 6) hal_boot))))
    !! (fst (hal_malloc_aligned bump_platform 1024 (2 ^ 6) hal_boot) - 8)
  = Some 4096.
Proof.
  refine (proj1 (live_blocks_keep_their_raw_pointers bump_platform
                   1024 6 100 4 hal_boot _ _ _ _ _ _ _ _ _ _ _)).
  - reflexivity.
  - exact bump_platform_malloc_contract.
  - lia.
  - vm_compute. split; [discriminate | reflexivity].
  - lia.
  - vm_compute. split; [discriminate | reflexivity].
  - vm_compute. discriminate.
  - vm_compute. discriminate.
  - vm_compute. discriminate.
  - vm_compute. discriminate.
  - left. vm_compute. discriminate.
Defined.

(** ** The unit tests *)

Lemma memset_below (n : nat) : forall (h : gmap Z Z) (ptr value a : Z),
  a < ptr -> memset h ptr value n !! a = h !! a.
Proof.
  induction n as [|n IH]; intros h ptr value a Ha; simpl; [reflexivity|].
  rewrite IH by lia. apply lookup_insert_ne. lia.
Qed.

Lemma memset_inside (n : nat) : forall (h : gmap Z Z) (ptr value i : Z),
  0 <= i < Z.of_nat n -> memset h ptr value n !! (ptr + i) = Some value.
Proof.
  induction n as [|n IH]; intros h ptr value i Hi; simpl; [lia|].
  destruct (Z.eq_dec i 0) as [->|Hne].
  - rewrite Z.add_0_r, memset_below by lia. apply lookup_insert_eq.
  - replace (ptr + i) with (ptr + 1 + (i - 1)) by lia. apply IH. lia.
Qed.

Local Opaque memset.

(** X20.  [test_aligned_malloc] can fail in one way only.  When the
    operating system keeps its contracts, the test never reports a pointer
    that is not aligned and its free is never undefined: it fails exactly
    when the allocation returns null, and otherwise it fills the 1024 bytes
    of the block with 0xAA, passes, and has given [free] the pointer the
    platform allocator handed out (the block itself with [posix_memalign],
    the raw pointer in the fallback, whose slot the [memset] leaves
    alone). *)
Theorem test_aligned_malloc_outcome (P : platform) (s : hal_state) :
  posix_memalign_contract P ->
  malloc_contract P ->
  let A := fst (hal_malloc_aligned P 1024 64 s) in
  let base :=
    if HAS_POSIX_MEMALIGN P then A
    else malloc P (1024 + 64 + sizeof_ptr (pointer_model P)) (os_step s) in
  (A = 0 ->
   test_aligned_malloc P s = Some (1, snd (hal_malloc_aligned P 1024 64 s))) /\
  (A <> 0 ->
   exists s',
     test_aligned_malloc P s = Some (0, s') /\
     (forall i : Z, 0 <= i < 1024 -> heap s' !! (A + i) = Some 170) /\
     released s' = base :: released s).
Proof.
  intros Hposix Hmalloc. change 64 with (2 ^ 6).
  assert (Hk : 0 <= 6 < word_bits (pointer_model P))
    by (destruct (pointer_model P); simpl; lia).
  assert (Hfit : 1024 + 2 ^ 6 + sizeof_ptr (pointer_model P)
                 <= SIZE_MAX (pointer_model P))
    by (destruct (pointer_model P); vm_compute; discriminate).
  pose proof (malloc_aligned_alignment P 1024 6 s Hk Hposix) as Halign.
  pose proof (malloc_aligned_fallback P 1024 6 s ltac:(lia) Hk Hfit Hmalloc)
    as Hfb.
  pose proof (malloc_aligned_fallback_state P 1024 6 s ltac:(lia) Hk Hfit
                Hmalloc) as Hst.
  pose proof (sizeof_ptr_pos (pointer_model P)) as Hptr.
  unfold test_aligned_malloc. change 64 with (2 ^ 6).
  destruct (hal_malloc_aligned P 1024 (2 ^ 6) s) as [A s1] eqn:Halloc.
  simpl in *. split.
  - intros ->. reflexivity.
  - intros HA. destruct (Z.eqb_spec A 0) as [|_]; [contradiction|].
    rewrite Halign. simpl.
    unfold hal_free_aligned.
    destruct (Z.eqb_spec A 0) as [|_]; [contradiction|].
    destruct (HAS_POSIX_MEMALIGN P) eqn:Hstrategy.
    + eexists. split; [reflexivity|]. simpl. split.
      * intros i Hi. apply memset_inside. lia.
      * f_equal. unfold hal_malloc_aligned in Halloc.
        rewrite Hstrategy in Halloc.
        destruct (posix_memalign P (2 ^ 6) 1024 (os_step s)) as [rc p].
        destruct (rc =? 0); injection Halloc as _ <-; reflexivity.
    + destruct (Hfb eq_refl HA) as (Hraw & Hlo & Hhi & Hslot & _).
      specialize (Hst eq_refl HA).
      destruct (Hmalloc _ _ Hraw) as [Hpos Hin].
      rewrite (uword_small _ (A - sizeof_ptr (pointer_model P)))
        by (unfold SIZE_MAX; lia).
      simpl. rewrite memset_below by lia. rewrite Hslot.
      eexists. split; [reflexivity|]. simpl. split.
      * intros i Hi. apply memset_inside. lia.
      * rewrite Hst. reflexivity.
Qed.

Lemma test_aligned_malloc_outcome_witness :
  exists s',
    test_aligned_malloc signal_platform hal_boot = Some (0, s') /\
    (forall i : Z, 0 <= i < 1024 ->
       heap s'
         !! (fst (hal_malloc_aligned signal_platform 1024 64 hal_boot) + i)
       = Some 170) /\
    released s' = [4096].
Proof.
  destruct (test_aligned_malloc_outcome signal_platform hal_boot
              signal_platform_posix_contract signal_platform_malloc_contract)
    as [_ Hpass].
  apply Hpass. vm_compute. discriminate.
Defined.

(** X21.  [test_timestamp] can fail in one way only.  On a platform whose
    first clock always answers, never runs backward and stays in range, a
    run of the test that ends has measured at least the 1000 microseconds it
    asked for, so it never fails for a delay that was too short: it fails
    exactly when the measured time is above 1100 microseconds. *)
Theorem test_timestamp_fails_only_late (P : platform) (fuel : nat)
  (s : hal_state) (r : Z) :
  clock_always_answers P -> clock_nondecreasing P -> clock_in_range P ->
  reading P (S (os_step s)) + 1000 <= UINT64_MAX ->
  test_timestamp P fuel s = Some r ->
  exists diff : Z,
    measure_delay P fuel 1000 s = Some diff /\
    1000 <= diff /\
    r = (if 1100 <? diff then 1 else 0).
Proof.
  intros Hanswers Hmono Hrange Hfit. unfold test_timestamp.
  destruct (measure_delay P fuel 1000 s) as [diff|] eqn:Hm; [|discriminate].
  intros [= <-].
  pose proof (delay_busy_poll_elapsed P Hanswers Hmono Hrange fuel 1000 s diff
                ltac:(lia) Hfit Hm) as Hlong.
  exists diff. split; [reflexivity|]. split; [exact Hlong|].
  destruct (Z.ltb_spec diff 900); [lia|]. reflexivity.
Qed.

Lemma test_timestamp_fails_only_late_witness :
  exists diff : Z,
    measure_delay signal_platform 1500 1000 hal_boot = Some diff /\
    1000 <= diff /\
    0 = (if 1100 <? diff then 1 else 0).
Proof.
  apply (test_timestamp_fails_only_late signal_platform 1500 hal_boot 0
           signal_platform_answers signal_platform_nondecreasing
           signal_platform_in_range).
  - vm_compute. discriminate.
  - vm_compute. reflexivity.
Defined.

(** X22.  [test_interrupt_control] leaves the HAL as it found it: from any
    counter below [UINT32_MAX] the disable, the restore with the token it
    got, the critical-section entry and the exit give back the very state
    the test started from, and the test passes. *)
Theorem test_interrupt_control_restores_state (s : hal_state) :
  0 <= g_interrupt_nesting s < UINT32_MAX ->
  test_interrupt_control s = (0, s).
Proof.
  intros Hs. destruct s as [i t n h r o]; simpl in Hs.
  unfold test_interrupt_control, hal_exit_critical, hal_enter_critical,
    hal_restore_interrupts, hal_disable_interrupts; simpl.
  rewrite (u32_small (n + 1)) by by_range.
  destruct (Z.ltb_spec 0 (n + 1)) as [_|Hneg]; [|lia]. simpl.
  replace (n + 1 - 1) with n by lia.
  rewrite (u32_small n) by by_range. simpl.
  rewrite (u32_small (n + 1)) by by_range.
  destruct (Z.ltb_spec 0 (n + 1)) as [_|Hneg]; [|lia].
  unfold set_interrupt_nesting; simpl.
  replace (n + 1 - 1) with n by lia.
  rewrite (u32_small n) by by_range. reflexivity.
Qed.

Lemma test_interrupt_control_restores_state_witness :
  test_interrupt_control hal_boot = (0, hal_boot).
Proof.
  apply (test_interrupt_control_restores_state hal_boot). by_range.
Defined.

(** ** The wait for a DMA transfer, measured *)

(** Around a positive timeout the measurement of [hal_dma_wait] is the
    measurement of [hal_delay_us]. *)
Lemma measure_dma_wait_is_delay (P : platform) (fuel : nat)
  (dma_id timeout_us : Z) (s : hal_state) :
  0 < timeout_us ->
  measure_dma_wait P fuel dma_id timeout_us s
  = option_map (fun elapsed => (HAL_OK, elapsed))
      (measure_delay P fuel timeout_us s).
Proof.
  intros Hpos. unfold measure_dma_wait, measure_delay, hal_dma_wait.
  destruct (hal_get_timestamp_us P s) as [t1 s1].
  destruct (Z.ltb_spec 0 timeout_us) as [_|Hneg]; [|lia].
  destruct (hal_delay_us P fuel timeout_us s1) as [s2|]; [|reflexivity].
  destruct (hal_get_timestamp_us P s2) as [t2 s3]. reflexivity.
Qed.

(** A busy-polled wait does block for the full timeout. *)
Lemma dma_wait_busy_poll_blocks (P : platform) (fuel : nat)
  (dma_id timeout_us : Z) (s : hal_state) (st : hal_status_t) (elapsed : Z) :
  clock_always_answers P -> clock_nondecreasing P -> clock_in_range P ->
  0 < timeout_us <= 10000 ->
  reading P (S (os_step s)) + timeout_us <= UINT64_MAX ->
  measure_dma_wait P fuel dma_id timeout_us s = Some (st, elapsed) ->
  st = HAL_OK /\ timeout_us <= elapsed.
Proof.
  intros Hanswers Hmono Hrange Ht Hfit Hm.
  rewrite measure_dma_wait_is_delay in Hm by lia.
  destruct (measure_delay P fuel timeout_us s) as [e|] eqn:He;
    [|discriminate].
  injection Hm as <- <-. split; [reflexivity|].
  exact (delay_busy_poll_elapsed P Hanswers Hmono Hrange fuel timeout_us s e
           Ht Hfit He).
Qed.

(** C10 at a timeout the code does not keep.  On a platform whose clocks
    answer and never run backward, a signal ends the [nanosleep] that
    [hal_delay_us] makes for [hal_dma_wait(7, 20000)] as it starts: the call
    returns [HAL_OK] with 3 microseconds between the timestamps taken before
    and after it, so it has not blocked for the full timeout. *)
Theorem dma_wait_cut_short_by_signal :
  clock_always_answers signal_platform /\
  clock_nondecreasing signal_platform /\
  nanosleep signal_platform (sleep_request 20000) 2 = -1 /\
  forall fuel : nat,
    measure_dma_wait signal_platform fuel 7 20000 hal_boot
    = Some (HAL_OK, 3).
Proof.
  split; [exact signal_platform_answers|].
  split; [exact signal_platform_nondecreasing|].
  split; [reflexivity|]. intros fuel. reflexivity.
Qed.

(** ** The sleep branch of the delay *)




(** Where the clocks differ the hypothesis on the timestamp clock is needed:
    on this platform the sleep is not cut short and lasts the 20 ms as
    [CLOCK_MONOTONIC] shows them, and the timestamps, read from
    [CLOCK_MONOTONIC_RAW], are 19993 microseconds apart. *)
Example sleep_measured_short_on_raw_clock :
  nanosleep slewed_platform (sleep_request 20000) 2 = 0 /\
  sleep_lasted_on slewed_platform CLOCK_MONOTONIC 2 (sleep_request 20000) /\
  measure_delay slewed_platform 0 20000 hal_boot = Some 19993.
Proof.
  split; [reflexivity|]. split; [|reflexivity].
  intros i j a b Hi Hj Ha Hb. simpl in Ha, Hb.
  injection Ha as <-. injection Hb as <-.
  destruct (Z.ltb_spec 2 (Z.of_nat i)) as [|_]; [lia|].
  destruct (Z.ltb_spec 2 (Z.of_nat j)) as [_|]; [|lia].
  rewrite !timespec_of_us_ns.
  change (timespec_ns (sleep_request 20000)) with 20000000.
  unfold example_time. lia.
Qed.

(** ** An alignment of 0 *)

(** For a power-of-two alignment and a size that does not wrap, the store of
    the fallback is inside the raw block and the call has the outcome
    [hal_malloc_aligned] gives. *)
Lemma malloc_aligned_checked_defined (P : platform) (size k : Z)
  (s : hal_state) :
  0 < size -> 0 <= k < word_bits (pointer_model P) ->
  size + 2 ^ k + sizeof_ptr (pointer_model P) <= SIZE_MAX (pointer_model P) ->
  malloc_contract P ->
  hal_malloc_aligned_checked P size (2 ^ k) s
  = Some (hal_malloc_aligned P size (2 ^ k) s).
Proof.
  intros Hsize Hk Hfit Hmalloc. unfold hal_malloc_aligned_checked.
  destruct (HAS_POSIX_MEMALIGN P); [reflexivity|].
  destruct (Z.eqb_spec (malloc P (raw_size P size (2 ^ k)) (os_step s)) 0)
    as [|Hraw]; [reflexivity|].
  replace (stash_in_bounds P size (2 ^ k) s) with true; [reflexivity|].
  symmetry. unfold stash_in_bounds.
  pose proof (pow2_below_word _ k Hk) as Hp.
  pose proof (sizeof_ptr_pos (pointer_model P)) as Hptr.
  destruct (Hmalloc _ _ Hraw) as [Hpos Hin]. unfold raw_size in *.
  rewrite (uword_small _ (size + 2 ^ k + sizeof_ptr (pointer_model P)))
    in * by lia.
  set (raw := malloc P _ _) in *.
  assert (Hword : 2 ^ word_bits (pointer_model P)
                  = SIZE_MAX (pointer_model P) + 1) by (unfold SIZE_MAX; lia).
  rewrite (uword_small _ (raw + sizeof_ptr (pointer_model P))) by lia.
  pose proof (align_up_bounds P (raw + sizeof_ptr (pointer_model P)) k Hk
                ltac:(lia) ltac:(lia)) as Hal.
  rewrite (uword_small _ (align_up P _ _ - sizeof_ptr (pointer_model P)))
    by lia.
  apply andb_true_intro. split; [apply Z.leb_le | apply Z.leb_le]; lia.
Qed.


